(** * msplot: the mzML -> molecular-network pipeline of [create_test_network.py]

    A shallow embedding of the four analytical stages of the script

    - [cosine_similarity_ms2]      (SpectralAligner),
    - [extract_features_from_mzml] (FeatureExtractor),
    - [blank_subtraction]          (BlankFilter),
    - [create_network]             (SimilarityEngine + NetworkBuilder),

    together with the properties the specification states about them, and
    of the code around these stages: [escape_xml], [export_mgf], the node
    numbering of the XGMML export, and the validation and blank-subtraction
    steps of [main].  Text is a [string] of 8-bit characters; the five
    characters [escape_xml] replaces are ASCII.

    Number model.  Measured quantities (m/z, retention time, intensity,
    similarity scores, tolerances) are Python floats in the script; here they
    are real numbers, so rounding of measured values is idealised away.  The
    one place where binary64 rounding changes an _integer_ result, the node
    quota [int(num_nodes * 0.7)], is computed with binary64 floats exactly as
    Python does (for instance [int(90 * 0.7) = 62]). *)

From Stdlib Require Import Floats.PrimFloat.
From Stdlib Require Floats.FloatOps Floats.SpecFloat.
From Stdlib Require Numbers.Cyclic.Int63.Uint63.
From Stdlib Require Import Ascii String.
From Stdlib Require Import List ZArith Reals Lra Lia Bool Arith.
From Stdlib Require Import Permutation Sorted.
Import ListNotations.

Set Implicit Arguments.

(* ================================================================== *)
(** * Python values used by the script *)
(* ================================================================== *)

Local Open Scope R_scope.

(** Comparisons of floats, as booleans. *)
Definition Rltb (x y : R) : bool := if Rlt_dec x y then true else false.
Definition Rleb (x y : R) : bool := if Rle_dec x y then true else false.
Definition Reqb (x y : R) : bool := if Req_dec_T x y then true else false.

(** Truth value of a float in a condition: [0.0] is false. *)
Definition truthy (x : R) : bool := negb (Reqb x 0).

(** The slice [l[:k]]: a negative [k] counts from the end. *)
Definition py_slice_to (A : Type) (l : list A) (k : Z) : list A :=
  if (k <? 0)%Z then firstn (length l - Z.to_nat (- k)) l
  else firstn (Z.to_nat k) l.

(** [float(n)] for an [int] (exact below [2^53]). *)
Definition py_float_of_int (n : Z) : PrimFloat.float :=
  if (n <? 0)%Z
  then PrimFloat.opp (PrimFloat.of_uint63 (Uint63.of_Z (- n)))
  else PrimFloat.of_uint63 (Uint63.of_Z n).

(** [int(x)] for a finite float: truncation toward zero. *)
Definition py_int_of_float (x : PrimFloat.float) : Z :=
  match FloatOps.Prim2SF x with
  | SpecFloat.S754_finite s m e =>
      let magnitude :=
        if (0 <=? e)%Z then (Z.pos m * 2 ^ e)%Z else (Z.pos m / 2 ^ (- e))%Z in
      if s then (- magnitude)%Z else magnitude
  | _ => 0%Z
  end.

(** The float literal [0.7], i.e. the binary64 number
    0.6999999999999999555910790149937. *)
Definition float_0_7 : PrimFloat.float := 0x1.6666666666666p-1%float.

(** Feature identities.  The script formats them as
    [f"feature_{stem}_{counter:04d}"] for MS1 base peaks and
    [f"feature_{stem}_ms2_{ms2_count:04d}"] for features synthesised from an
    orphan MS2 scan; the constructors keep the three components apart. *)
Inductive feature_id : Type :=
| Ms1Feature (stem : string) (counter : nat)
| Ms2Feature (stem : string) (ms2_count : nat).

Definition feature_id_eq_dec (a b : feature_id) : {a = b} + {a <> b}.
Proof. decide equality; solve [apply Nat.eq_dec | apply string_dec]. Defined.

Definition fid_eqb (a b : feature_id) : bool :=
  if feature_id_eq_dec a b then true else false.

Definition fid_in (a : feature_id) (l : list feature_id) : bool :=
  existsb (fid_eqb a) l.

(** A [dict] keyed by feature identity, in insertion order. *)
Definition dict (V : Type) : Type := list (feature_id * V).

Fixpoint dict_get (V : Type) (d : dict V) (k : feature_id) : option V :=
  match d with
  | [] => None
  | (k', v) :: d' => if fid_eqb k k' then Some v else dict_get d' k
  end.

Definition dict_mem (V : Type) (k : feature_id) (d : dict V) : bool :=
  match dict_get d k with Some _ => true | None => false end.

(** [d[k] = v]: overwrite in place, or append a new key. *)
Fixpoint dict_set (V : Type) (d : dict V) (k : feature_id) (v : V) : dict V :=
  match d with
  | [] => [(k, v)]
  | (k', v') :: d' =>
      if fid_eqb k k' then (k', v) :: d' else (k', v') :: dict_set d' k v
  end.

(** A peak is an [(mz, intensity)] tuple, a spectrum a list of peaks. *)
Definition peak : Type := (R * R)%type.
Definition spectrum : Type := list peak.

(** The feature record
    [{'mz':, 'rt':, 'intensity':, 'file':, 'is_blank':}]. *)
Record feature : Type := Feature {
  mz : R;
  rt : R;
  intensity : R;
  file : string;
  is_blank : bool
}.

(** [sorted(l, key=...)]: a stable sort, written as an insertion sort over a
    boolean "may stay in front of" test [le] on the keys. *)
Section StableSort.

Variable A : Type.
Variable le : A -> A -> bool.

Fixpoint insert_sorted (x : A) (l : list A) : list A :=
  match l with
  | [] => [x]
  | y :: l' => if le x y then x :: y :: l' else y :: insert_sorted x l'
  end.

Fixpoint sorted (l : list A) : list A :=
  match l with
  | [] => []
  | x :: l' => insert_sorted x (sorted l')
  end.

End StableSort.

(* ================================================================== *)
(** * SpectralAligner: [cosine_similarity_ms2] *)
(* ================================================================== *)

Definition default_mz_tolerance : R := 0.02.

(** One [append] on each of [aligned1] and [aligned2]. *)
Definition emit (p1 p2 : peak) (rest : list peak * list peak)
  : list peak * list peak :=
  (p1 :: fst rest, p2 :: snd rest).

(** [while i < len(spectrum1): ...] once [spectrum2] is exhausted. *)
Definition remaining1 (s1 : spectrum) : list peak * list peak :=
  (s1, map (fun p => (fst p, 0)) s1).

(** [while j < len(spectrum2): ...] once [spectrum1] is exhausted. *)
Definition remaining2 (s2 : spectrum) : list peak * list peak :=
  (map (fun p => (fst p, 0)) s2, s2).

(** The two-cursor walk of lines 63-92.  The result is the pair
    [(aligned1, aligned2)]. *)
Fixpoint align (mz_tolerance : R) (spectrum1 spectrum2 : spectrum)
  {struct spectrum1} : list peak * list peak :=
  match spectrum1 with
  | [] => remaining2 spectrum2
  | (mz1, int1) :: rest1 =>
      (fix walk (s2 : spectrum) : list peak * list peak :=
         match s2 with
         | [] => remaining1 spectrum1
         | (mz2, int2) :: rest2 =>
             if Rle_dec (Rabs (mz1 - mz2)) mz_tolerance then
               emit ((mz1 + mz2) / 2, int1) ((mz1 + mz2) / 2, int2)
                    (align mz_tolerance rest1 rest2)
             else if Rlt_dec mz1 mz2 then
               emit (mz1, int1) (mz1, 0) (align mz_tolerance rest1 s2)
             else
               emit (mz2, 0) (mz2, int2) (walk rest2)
         end) spectrum2
  end.

(** [np.array([x[1] for x in aligned])]. *)
Definition intensities (aligned : list peak) : list R := map snd aligned.

(** [np.dot]. *)
Fixpoint dot (v1 v2 : list R) : R :=
  match v1, v2 with
  | x :: v1', y :: v2' => x * y + dot v1' v2'
  | _, _ => 0
  end.

(** [np.linalg.norm] of a vector: the Euclidean norm.  With [dot] and the
    division of line 106 it is taken over the reals, where numpy rounds to
    binary64: a computed score can differ from the real one in its last
    digits, so the properties below state which return is reached, its
    operands, its sign and its symmetry, and an exact score only where the
    binary64 computation is exact too. *)
Definition norm (v : list R) : R := sqrt (dot v v).

(** Which [return] statement of [cosine_similarity_ms2] is reached, and, for
    the last one, the operands of its division. *)
Inductive cosine_return : Type :=
| ReturnEmpty                        (* line 57:  return 0.0 *)
| ReturnZeroNorm                     (* line 104: return 0.0 *)
| ReturnQuotient (dot_product norm1 norm2 : R).
                                     (* line 106: dot / (norm1 * norm2) *)

Definition is_empty (A : Type) (l : list A) : bool :=
  match l with [] => true | _ => false end.

Definition cosine_path (spectrum1 spectrum2 : spectrum) (mz_tolerance : R)
  : cosine_return :=
  if is_empty spectrum1 || is_empty spectrum2 then ReturnEmpty
  else
    let aligned := align mz_tolerance spectrum1 spectrum2 in
    let int1 := intensities (fst aligned) in
    let int2 := intensities (snd aligned) in
    let dot_product := dot int1 int2 in
    let norm1 := norm int1 in
    let norm2 := norm int2 in
    if Req_dec_T norm1 0 then ReturnZeroNorm
    else if Req_dec_T norm2 0 then ReturnZeroNorm
    else ReturnQuotient dot_product norm1 norm2.

Definition returned_value (r : cosine_return) : R :=
  match r with
  | ReturnEmpty | ReturnZeroNorm => 0
  | ReturnQuotient d n1 n2 => d / (n1 * n2)
  end.

Definition cosine_similarity_ms2 (spectrum1 spectrum2 : spectrum)
  (mz_tolerance : R) : R :=
  returned_value (cosine_path spectrum1 spectrum2 mz_tolerance).


(* ================================================================== *)
(** * FeatureExtractor: [extract_features_from_mzml] *)
(* ================================================================== *)

(** What the script reads from one pymzml spectrum.  [precursor_mz] is the
    outcome of the probing of lines 158-198: [None] stands for "no precursor
    obtainable" (the scan is skipped, lines 196-201). *)
Record scan : Type := Scan {
  ms_level : Z;
  scan_time : option R;             (* spectrum.get('scan time') *)
  scan_time_in_seconds : option R;  (* spectrum.get('scan time in seconds') *)
  precursor_mz : option R;
  peaks : list peak                 (* spectrum.peaks('raw') *)
}.

(** Lines 130-134. *)
Definition scan_rt (sp : scan) : option R :=
  match scan_time sp with
  | Some t => Some t
  | None =>
      match scan_time_in_seconds sp with
      | Some s => Some (s / 60)
      | None => None
      end
  end.

(** [rt if rt else 0.0]. *)
Definition rt_or_zero (t : option R) : R :=
  match t with
  | Some t => if truthy t then t else 0
  | None => 0
  end.

(** [max(peaks, key=lambda x: x[1])]: the first peak of maximal intensity. *)
Definition base_peak_of (first : peak) (others : list peak) : peak :=
  fold_left (fun best p => if Rltb (snd best) (snd p) then p else best)
            others first.

(** Python's two-argument [max(a, b)]. *)
Definition py_max (a b : R) : R := if Rltb a b then b else a.

(** [max(p[1] for p in peaks)]. *)
Definition max_intensity_of (first : peak) (others : list peak) : R :=
  fold_left (fun best x => if Rltb best x then x else best)
            (map snd others) (snd first).

(** Lines 209-212. *)
Definition filter_peaks (first : peak) (others : list peak) : spectrum :=
  let max_intensity := max_intensity_of first others in
  let threshold := py_max (0.01 * max_intensity) (max_intensity / 50) in
  filter (fun p => Rleb threshold (snd p)) (first :: others).

Definition feature_mz_tolerance : R := 0.1.

(** One iteration of the loop of lines 222-227 over [features.items()];
    [min_diff = None] is [float('inf')]. *)
Definition closest_step (precursor : R)
  (acc : option feature_id * option R) (entry : feature_id * feature)
  : option feature_id * option R :=
  let '(fid, feat) := entry in
  if is_blank feat then acc
  else
    let diff := Rabs (mz feat - precursor) in
    let below_min :=
      match snd acc with None => true | Some min_diff => Rltb diff min_diff end in
    if below_min && Rltb diff feature_mz_tolerance
    then (Some fid, Some diff)
    else acc.

(** Lines 218-227: [best_feature] after the scan. *)
Definition find_best_feature (features : dict feature) (precursor : R)
  : option feature_id :=
  fst (fold_left (closest_step precursor) features (None, None)).

(** The loop state of [extract_features_from_mzml]. *)
Record extractor_state : Type := ExtractorState {
  st_features : dict feature;
  st_ms2_spectra : dict spectrum;
  st_feature_counter : nat;
  st_ms2_count : nat
}.

Definition initial_state : extractor_state :=
  ExtractorState [] [] 0 0.

Definition sum_intensity (s : spectrum) : R :=
  fold_left Rplus (map snd s) 0.

(** The MS1 branch, lines 136-152. *)
Definition process_ms1 (stem : string) (blank : bool)
  (st : extractor_state) (sp : scan) : extractor_state :=
  match peaks sp with
  | [] => st
  | first :: others =>
      let base_peak := base_peak_of first others in
      if Rltb 0 (snd base_peak) then
        let fid := Ms1Feature stem (st_feature_counter st) in
        ExtractorState
          (dict_set (st_features st) fid
             (Feature (fst base_peak) (rt_or_zero (scan_rt sp))
                      (snd base_peak) stem blank))
          (st_ms2_spectra st)
          (S (st_feature_counter st))
          (st_ms2_count st)
      else st
  end.

(** The MS2 branch, lines 154-244. *)
Definition process_ms2 (stem : string) (blank : bool)
  (st : extractor_state) (sp : scan) : extractor_state :=
  match precursor_mz sp with
  | None => st
  | Some precursor =>
      match peaks sp with
      | [] => st
      | first :: others =>
          match filter_peaks first others with
          | [] => st
          | filtered_peaks =>
              match find_best_feature (st_features st) precursor with
              | Some best_feature =>
                  ExtractorState
                    (st_features st)
                    (dict_set (st_ms2_spectra st) best_feature filtered_peaks)
                    (st_feature_counter st)
                    (S (st_ms2_count st))
              | None =>
                  if negb blank then
                    let fid := Ms2Feature stem (st_ms2_count st) in
                    ExtractorState
                      (dict_set (st_features st) fid
                         (Feature precursor (rt_or_zero (scan_rt sp))
                                  (sum_intensity filtered_peaks) stem blank))
                      (dict_set (st_ms2_spectra st) fid filtered_peaks)
                      (st_feature_counter st)
                      (S (st_ms2_count st))
                  else st
              end
          end
      end
  end.

(** The body of [for spectrum in run]. *)
Definition process_scan (stem : string) (blank : bool)
  (st : extractor_state) (sp : scan) : extractor_state :=
  if (ms_level sp =? 1)%Z then process_ms1 stem blank st sp
  else if (ms_level sp =? 2)%Z then process_ms2 stem blank st sp
  else st.

Definition run_extractor (stem : string) (blank : bool) (run : list scan)
  : extractor_state :=
  fold_left (process_scan stem blank) run initial_state.

(** [extract_features_from_mzml(mzml_path, is_blank)], on the scans of the
    file: returns [(features, ms2_spectra)]. *)
Definition extract_features_from_mzml (stem : string) (blank : bool)
  (run : list scan) : dict feature * dict spectrum :=
  let st := run_extractor stem blank run in
  (st_features st, st_ms2_spectra st).

(* ================================================================== *)
(** * BlankFilter: [blank_subtraction] *)
(* ================================================================== *)

Definition default_intensity_ratio_threshold : R := 3.

(** Lines 274-282 for one blank feature: the condition under which the inner
    loop sets [found_in_blank] and breaks. *)
Definition blank_hit (feat blank_feat : feature)
  (intensity_ratio_threshold : R) : bool :=
  let mz_diff := Rabs (mz blank_feat - mz feat) in
  let rt_diff :=
    if truthy (rt feat) && truthy (rt blank_feat)
    then Rabs (rt blank_feat - rt feat) else 0 in
  if Rltb mz_diff 0.01 && Rltb rt_diff 0.1 then
    if Rltb 0 (intensity blank_feat) then
      Rltb (intensity feat / intensity blank_feat) intensity_ratio_threshold
    else false
  else false.

(** The inner loop of lines 273-285: the blank entry at which it breaks, if
    any. *)
Fixpoint scan_blank (feat : feature) (blank_features : dict feature)
  (intensity_ratio_threshold : R) : option (feature_id * feature) :=
  match blank_features with
  | [] => None
  | (blank_fid, blank_feat) :: rest =>
      if blank_hit feat blank_feat intensity_ratio_threshold
      then Some (blank_fid, blank_feat)
      else scan_blank feat rest intensity_ratio_threshold
  end.

Definition found_in_blank (feat : feature) (blank_features : dict feature)
  (intensity_ratio_threshold : R) : bool :=
  match scan_blank feat blank_features intensity_ratio_threshold with
  | Some _ => true
  | None => false
  end.

(** The outer loop: entries of [sample_features] are visited in order and
    copied into [filtered] unless found in the blank. *)
Fixpoint blank_subtraction (sample_features blank_features : dict feature)
  (intensity_ratio_threshold : R) : dict feature :=
  match sample_features with
  | [] => []
  | (fid, feat) :: rest =>
      if found_in_blank feat blank_features intensity_ratio_threshold
      then blank_subtraction rest blank_features intensity_ratio_threshold
      else (fid, feat)
             :: blank_subtraction rest blank_features intensity_ratio_threshold
  end.

(* ================================================================== *)
(** * The [networkx] graph used by [create_network] *)
(* ================================================================== *)

(** An undirected [nx.Graph]: nodes in insertion order, and one entry per
    edge carrying its [weight] (the [cosine] attribute has the same value). *)
Record graph : Type := Graph {
  nodes : list feature_id;
  edges : list (feature_id * feature_id * R)
}.

Definition empty_graph : graph := Graph [] [].

Definition has_node (g : graph) (n : feature_id) : bool := fid_in n (nodes g).

(** [G.add_node(n)]. *)
Definition add_node (n : feature_id) (g : graph) : graph :=
  if has_node g n then g else Graph (nodes g ++ [n]) (edges g).

Definition same_edge (u v : feature_id) (e : feature_id * feature_id * R)
  : bool :=
  (fid_eqb (fst (fst e)) u && fid_eqb (snd (fst e)) v)
  || (fid_eqb (fst (fst e)) v && fid_eqb (snd (fst e)) u).

(** [G.add_edge(u, v, weight=w, cosine=w)]: both endpoints become nodes ([u]
    first), and an existing edge between them only has its attributes
    updated. *)
Definition add_edge (u v : feature_id) (w : R) (g : graph) : graph :=
  let g' := add_node v (add_node u g) in
  if existsb (same_edge u v) (edges g')
  then Graph (nodes g')
             (map (fun e => if same_edge u v e then (fst e, w) else e)
                  (edges g'))
  else Graph (nodes g') (edges g' ++ [(u, v, w)]).

(** [G.degree(n)]: the number of edge ends at [n]. *)
Definition degree (g : graph) (n : feature_id) : nat :=
  fold_right
    (fun e acc =>
       ((if fid_eqb (fst (fst e)) n then 1 else 0)
        + (if fid_eqb (snd (fst e)) n then 1 else 0) + acc)%nat)
    0%nat (edges g).

(** [G.subgraph(selected).copy()]: the nodes of [G] that are in [selected],
    with the edges of [G] between them.  The nodes are listed in the order
    of [G], which is the order of [networkx] when at least half of the
    nodes of [G] are selected; when fewer are, [networkx] walks the
    selection set instead.  The node set and the edges are the same either
    way, and the properties below that mention an order are stated
    relative to [nodes] of the returned graph. *)
Definition subgraph (g : graph) (selected : list feature_id) : graph :=
  Graph (filter (fun n => fid_in n selected) (nodes g))
        (filter (fun e => fid_in (fst (fst e)) selected
                          && fid_in (snd (fst e)) selected)
                (edges g)).

Definition number_of_nodes (g : graph) : nat := length (nodes g).
Definition number_of_edges (g : graph) : nat := length (edges g).

(* ================================================================== *)
(** * SimilarityEngine and NetworkBuilder: [create_network] *)
(* ================================================================== *)

Definition default_similarity_threshold : R := 0.7.
Definition default_max_mz : R := 500.

(** Line 303. *)
Definition features_with_ms2_all (features : dict feature)
  (ms2_spectra : dict spectrum) : dict feature :=
  filter (fun entry => dict_mem (fst entry) ms2_spectra) features.

(** Lines 316-317. *)
Definition features_with_ms2 (features : dict feature)
  (ms2_spectra : dict spectrum) (max_mz : R) : dict feature :=
  filter (fun entry => Rleb (mz (snd entry)) max_mz)
         (features_with_ms2_all features ms2_spectra).

(** Lines 326-336: [num_nodes] after the clamp to the pool size. *)
Definition clamp_num_nodes (pool_size : nat) (num_nodes : Z) : Z :=
  if (Z.of_nat pool_size <? num_nodes)%Z then Z.of_nat pool_size
  else num_nodes.

(** Lines 339-340: the candidates, by ascending m/z. *)
Definition mz_le (a b : feature_id * feature) : bool :=
  Rleb (mz (snd a)) (mz (snd b)).

Definition feature_list_of (pool : dict feature) (num_nodes : Z)
  : list feature_id :=
  map fst (py_slice_to (sorted mz_le pool) (num_nodes * 2)).

(** [ms2_spectra[fid]]; every candidate has an entry. *)
Definition spectrum_of (ms2_spectra : dict spectrum) (fid : feature_id)
  : spectrum :=
  match dict_get ms2_spectra fid with
  | Some s => s
  | None => []
  end.

(** [similarity_matrix[i, j]] for [i < j] (lines 347-355). *)
Definition similarity (ms2_spectra : dict spectrum) (fid1 fid2 : feature_id)
  : R :=
  cosine_similarity_ms2 (spectrum_of ms2_spectra fid1)
                        (spectrum_of ms2_spectra fid2)
                        default_mz_tolerance.

(** Lines 363-368 for a fixed [i]: the loop over [j > i]. *)
Definition add_edges_from (ms2_spectra : dict spectrum)
  (similarity_threshold : R) (fid1 : feature_id) (later : list feature_id)
  (g : graph) : graph :=
  fold_left
    (fun g fid2 =>
       let sim := similarity ms2_spectra fid1 fid2 in
       if Rleb similarity_threshold sim then add_edge fid1 fid2 sim g else g)
    later g.

(** Lines 362-368: the loop over [i]. *)
Fixpoint add_edges (ms2_spectra : dict spectrum) (similarity_threshold : R)
  (feature_list : list feature_id) (g : graph) : graph :=
  match feature_list with
  | [] => g
  | fid1 :: later =>
      add_edges ms2_spectra similarity_threshold later
        (add_edges_from ms2_spectra similarity_threshold fid1 later g)
  end.

(** Line 374. *)
Definition connected_nodes (g : graph) : list feature_id :=
  filter (fun node => (0 <? degree g node)%nat) (nodes g).

(** Lines 376-378. *)
Definition singleton_candidates (g : graph) (feature_list : list feature_id)
  : list feature_id :=
  filter (fun fid => negb (has_node g fid) || (degree g fid =? 0)%nat)
         feature_list.

(** Line 381: [sorted(..., key=G.degree, reverse=True)]; with [reverse=True]
    elements of equal degree still keep their original order. *)
Definition degree_ge (g : graph) (a b : feature_id) : bool :=
  (degree g b <=? degree g a)%nat.

Definition connected_nodes_sorted (g : graph) : list feature_id :=
  sorted (degree_ge g) (connected_nodes g).

(** Line 384: [int(num_nodes * 0.7)], in binary64. *)
Definition num_connected_of (num_nodes : Z) : Z :=
  py_int_of_float (PrimFloat.mul (py_float_of_int num_nodes) float_0_7).

(** Line 385. *)
Definition num_singletons_of (num_nodes : Z) : Z :=
  (num_nodes - num_connected_of num_nodes)%Z.

(** Lines 387-388. *)
Definition selected_connected_of (g : graph) (num_nodes : Z)
  : list feature_id :=
  py_slice_to (connected_nodes_sorted g) (num_connected_of num_nodes).

Definition selected_singletons_of (g : graph)
  (feature_list : list feature_id) (num_nodes : Z) : list feature_id :=
  py_slice_to (singleton_candidates g feature_list)
              (num_singletons_of num_nodes).

(** Lines 391-393. *)
Definition add_singletons (selected_singletons : list feature_id) (g : graph)
  : graph :=
  fold_left (fun g fid => add_node fid g) selected_singletons g.

(** Lines 396-399. *)
Definition selected_nodes_of (selected_connected selected_singletons
  : list feature_id) (num_nodes : Z) : list feature_id :=
  let selected_nodes := selected_connected ++ selected_singletons in
  if (num_nodes <? Z.of_nat (length selected_nodes))%Z then
    py_slice_to selected_connected (num_connected_of num_nodes)
    ++ py_slice_to selected_singletons
                   (num_nodes - num_connected_of num_nodes)
  else selected_nodes.

(** Lines 338-401, once the pool is known to be non-empty and [num_nodes]
    has been clamped. *)
Definition build_network (pool : dict feature) (ms2_spectra : dict spectrum)
  (num_nodes : Z) (similarity_threshold : R) : graph :=
  let feature_list := feature_list_of pool num_nodes in
  let G := add_edges ms2_spectra similarity_threshold feature_list
                     empty_graph in
  let selected_connected := selected_connected_of G num_nodes in
  let selected_singletons :=
    selected_singletons_of G feature_list num_nodes in
  let G := add_singletons selected_singletons G in
  subgraph G (selected_nodes_of selected_connected selected_singletons
                                num_nodes).

(** [create_network(features, ms2_spectra, num_nodes, similarity_threshold,
    max_mz)]: returns [(G, features_with_ms2)]. *)
Definition create_network (features : dict feature)
  (ms2_spectra : dict spectrum) (num_nodes : Z) (similarity_threshold : R)
  (max_mz : R) : graph * dict feature :=
  if is_empty (features_with_ms2_all features ms2_spectra)
  then (empty_graph, [])
  else
    let pool := features_with_ms2 features ms2_spectra max_mz in
    if (length pool =? 0)%nat then (empty_graph, [])
    else
      let num_nodes := clamp_num_nodes (length pool) num_nodes in
      (build_network pool ms2_spectra num_nodes similarity_threshold, pool).

(* ================================================================== *)
(** * XML escaping: [escape_xml] *)
(* ================================================================== *)

(** The double-quote character (code 34). *)
Definition double_quote : ascii := "034"%char.

(** [text.replace(old, new)] for a one-character [old]. *)
Fixpoint replace_char (old : ascii) (new : string) (text : string) : string :=
  match text with
  | EmptyString => EmptyString
  | String c rest =>
      if Ascii.eqb c old then (new ++ replace_char old new rest)%string
      else String c (replace_char old new rest)
  end.

(** Lines 447-453, for a [str]. *)
Definition escape_xml_text (text : string) : string :=
  let text := replace_char "&" "&amp;" text in
  let text := replace_char "<" "&lt;" text in
  let text := replace_char ">" "&gt;" text in
  let text := replace_char double_quote "&quot;" text in
  let text := replace_char "'" "&apos;" text in
  text.

(** [escape_xml(text)]: [None] gives the empty string. *)
Definition escape_xml (text : option string) : string :=
  match text with
  | None => EmptyString
  | Some text => escape_xml_text text
  end.

(* ================================================================== *)
(** * MGF export: [export_mgf] *)
(* ================================================================== *)

(** What one [f.write] of [export_mgf] puts in the file; the numbers are kept
    as values, not as their decimal renderings. *)
Inductive mgf_write : Type :=
| MgfBeginIons                            (* "BEGIN IONS\n" *)
| MgfFeatureId (node_id : feature_id)     (* f"FEATURE_ID={node_id}\n" *)
| MgfPepmass (pepmass : R)                (* f"PEPMASS={feat['mz']}\n" *)
| MgfRtInSeconds (seconds : R)            (* f"RTINSECONDS={feat['rt'] * 60}\n" *)
| MgfPeak (peak_mz peak_intensity : R)    (* f"{mz:.6f} {intensity:.6f}\n" *)
| MgfEndIons.                             (* "END IONS\n\n" *)

(** Lines 428-438: the writes for one node. *)
Definition mgf_entry (node_id : feature_id) (feat : feature)
  (spec : spectrum) : list mgf_write :=
  [MgfBeginIons; MgfFeatureId node_id; MgfPepmass (mz feat)]
  ++ (if truthy (rt feat) then [MgfRtInSeconds (rt feat * 60)] else [])
  ++ map (fun p => MgfPeak (fst p) (snd p)) spec
  ++ [MgfEndIons].

(** The loop of lines 422-438 over the nodes still to visit.  [None] is the
    [KeyError] of [features[node_id]]. *)
Fixpoint export_mgf_nodes (features : dict feature)
  (ms2_spectra : dict spectrum) (node_ids : list feature_id)
  : option (list mgf_write) :=
  match node_ids with
  | [] => Some []
  | node_id :: rest =>
      match dict_get ms2_spectra node_id with
      | None => export_mgf_nodes features ms2_spectra rest
      | Some spec =>
          match dict_get features node_id with
          | None => None
          | Some feat =>
              match export_mgf_nodes features ms2_spectra rest with
              | None => None
              | Some writes => Some (mgf_entry node_id feat spec ++ writes)
              end
          end
      end
  end.

(** [export_mgf(features, ms2_spectra, network, output_path)]: the writes to
    the output file. *)
Definition export_mgf (features : dict feature) (ms2_spectra : dict spectrum)
  (network : graph) : option (list mgf_write) :=
  export_mgf_nodes features ms2_spectra (nodes network).

(* ================================================================== *)
(** * XGMML export: the node numbering of [export_cytoscape_network] *)
(* ================================================================== *)

(** Lines 463-467 (and 544-546): [node_id_to_num], filled while enumerating
    [network.nodes()] from [start]. *)
Fixpoint number_nodes (node_ids : list feature_id) (start : nat)
  (node_id_to_num : dict nat) : dict nat :=
  match node_ids with
  | [] => node_id_to_num
  | node_id :: rest =>
      number_nodes rest (S start) (dict_set node_id_to_num node_id start)
  end.

Definition node_id_to_num (network : graph) : dict nat :=
  number_nodes (nodes network) 1 [].

(** Lines 498-500: the [source] and [target] written for an edge reported
    with endpoints [(u, v)]; [None] is the [KeyError] of [node_id_to_num[u]]
    or [node_id_to_num[v]]. *)
Definition edge_numbers (network : graph) (e : feature_id * feature_id * R)
  : option (nat * nat) :=
  match dict_get (node_id_to_num network) (fst (fst e)),
        dict_get (node_id_to_num network) (snd (fst e)) with
  | Some u_num, Some v_num => Some (u_num, v_num)
  | _, _ => None
  end.

(* ================================================================== *)
(** * The driver: [main] *)
(* ================================================================== *)

(** Lines 680-682: the requested node count is brought into [[10, 100]]. *)
Definition validate_num_nodes (num_nodes : Z) : Z :=
  if ((num_nodes <? 10) || (100 <? num_nodes))%Z
  then Z.max 10 (Z.min 100 num_nodes)
  else num_nodes.

(** Lines 722-725: the blank file, given by its stem and its scans, when
    there is one. *)
Definition extract_blank (blank_file : option (string * list scan))
  : dict feature * dict spectrum :=
  match blank_file with
  | Some (stem, run) => extract_features_from_mzml stem true run
  | None => ([], [])
  end.

(** Lines 736-740, on the tables [all_features] and [all_ms2] merged from
    the sample files: returns the new [(all_features, all_ms2)]. *)
Definition subtract_blank (blank_file : option (string * list scan))
  (all_features : dict feature) (all_ms2 : dict spectrum)
  (intensity_ratio : R) : dict feature * dict spectrum :=
  let blank_features := fst (extract_blank blank_file) in
  let has_blank_file :=
    match blank_file with Some _ => true | None => false end in
  if has_blank_file && negb (is_empty blank_features) then
    let all_features :=
      blank_subtraction all_features blank_features intensity_ratio in
    (all_features,
     filter (fun entry => dict_mem (fst entry) all_features) all_ms2)
  else (all_features, all_ms2).

(** Lines 736-748: [(network, network_features, all_ms2)] as [main] has
    them after the call of [create_network]; it stops there when the
    network has no node, and exports them otherwise. *)
Definition main_network (blank_file : option (string * list scan))
  (all_features : dict feature) (all_ms2 : dict spectrum)
  (num_nodes : Z) (max_mz similarity_threshold intensity_ratio : R)
  : graph * dict feature * dict spectrum :=
  let tables :=
    subtract_blank blank_file all_features all_ms2 intensity_ratio in
  let created :=
    create_network (fst tables) (snd tables) (validate_num_nodes num_nodes)
                   similarity_threshold max_mz in
  (fst created, snd created, snd tables).

(* ================================================================== *)
(** * Notions used to state the properties *)
(* ================================================================== *)

Definition swap_pair (A B : Type) (p : A * B) : B * A := (snd p, fst p).

(** The specification's wording of "a blank feature matches a sample
    feature": within 0.01 m/z units, within 0.1 minutes (a check that counts
    as satisfied when either retention time is zero), of positive intensity,
    and with [sample_intensity / blank_intensity] below the threshold. *)
Definition spec_blank_match (feat blank_feat : feature) (threshold : R)
  : Prop :=
  Rabs (mz blank_feat - mz feat) < 0.01 /\
  (rt feat = 0 \/ rt blank_feat = 0 \/ Rabs (rt blank_feat - rt feat) < 0.1) /\
  intensity blank_feat > 0 /\
  intensity feat / intensity blank_feat < threshold.

(** The distance the precursor matching minimises. *)
Definition precursor_diff (precursor : R) (feat : feature) : R :=
  Rabs (mz feat - precursor).

(** The specification's wording of "the closest non-blank feature, within
    tolerance, the earlier one on ties", for the entry at position [i]. *)
Definition spec_closest_feature (features : dict feature) (precursor : R)
  (i : nat) (fid : feature_id) (feat : feature) : Prop :=
  nth_error features i = Some (fid, feat) /\
  is_blank feat = false /\
  precursor_diff precursor feat < feature_mz_tolerance /\
  (forall j fid' feat',
      nth_error features j = Some (fid', feat') -> is_blank feat' = false ->
      precursor_diff precursor feat <= precursor_diff precursor feat') /\
  (forall j fid' feat',
      nth_error features j = Some (fid', feat') -> is_blank feat' = false ->
      (j < i)%nat ->
      precursor_diff precursor feat < precursor_diff precursor feat').

(** What the loop has established after visiting the prefix [seen]. *)
Definition closest_invariant (precursor : R) (seen : dict feature)
  (acc : option feature_id * option R) : Prop :=
  match acc with
  | (None, None) =>
      forall fid feat, In (fid, feat) seen -> is_blank feat = false ->
                       ~ precursor_diff precursor feat < feature_mz_tolerance
  | (Some fid, Some min_diff) =>
      exists i feat,
        spec_closest_feature seen precursor i fid feat
        /\ min_diff = precursor_diff precursor feat
  | _ => False
  end.

(** What holds of the loop state throughout a blank run. *)
Definition blank_run_invariant (stem : string) (st : extractor_state)
  : Prop :=
  st_ms2_spectra st = [] /\
  forall fid feat,
    In (fid, feat) (st_features st) ->
    is_blank feat = true /\ exists counter, fid = Ms1Feature stem counter.

(** The largest [num_nodes] the caller passes ([main] clamps the requested
    count into [[10, 100]]); the clamp to the pool size only lowers it. *)
Definition max_num_nodes : Z := 100.

(** [0 <= int(n * 0.7) <= n], as a test that can be run. *)
Definition quota_in_range (n : nat) : bool :=
  ((0 <=? num_connected_of (Z.of_nat n))
   && (num_connected_of (Z.of_nat n) <=? Z.of_nat n))%Z.

(** Well-formed graphs: no node is listed twice and every edge joins two
    nodes of the graph. *)
Definition wf_graph (g : graph) : Prop :=
  NoDup (nodes g) /\
  forall u v w, In (u, v, w) (edges g) -> In u (nodes g) /\ In v (nodes g).

(** The specification's wording of the singleton allowance:
    "up to N - selected_connected_count singletons". *)
Definition spec_num_singletons (num_nodes : Z)
  (selected_connected : list feature_id) : Z :=
  (num_nodes - Z.of_nat (length selected_connected))%Z.

Definition spec_selected_singletons (g : graph)
  (feature_list : list feature_id) (num_nodes : Z) : list feature_id :=
  py_slice_to (singleton_candidates g feature_list)
              (spec_num_singletons num_nodes
                 (selected_connected_of g num_nodes)).

(** The specification's wording of the ranking: the connected members of the
    candidate pool, in their ascending-m/z order, stably sorted by descending
    degree. *)
Definition spec_connected_ranking (g : graph)
  (feature_list : list feature_id) : list feature_id :=
  sorted (degree_ge g)
         (filter (fun fid => (0 <? degree g fid)%nat) feature_list).

(** The escape of one character: the entity for each of the five special
    characters, the character itself otherwise. *)
Definition escape_char (c : ascii) : string :=
  if Ascii.eqb c "&" then "&amp;"
  else if Ascii.eqb c "<" then "&lt;"
  else if Ascii.eqb c ">" then "&gt;"
  else if Ascii.eqb c double_quote then "&quot;"
  else if Ascii.eqb c "'" then "&apos;"
  else String c EmptyString.

(** Escaping in one pass, character by character. *)
Fixpoint escape_each (text : string) : string :=
  match text with
  | EmptyString => EmptyString
  | String c rest => (escape_char c ++ escape_each rest)%string
  end.

(** The five characters [escape_xml] replaces, and the four of them that
    delimit markup and attribute values. *)
Definition xml_special : list ascii :=
  ["&"; "<"; ">"; double_quote; "'"]%char.

Definition xml_delimiters : list ascii :=
  ["<"; ">"; double_quote; "'"]%char.

(** [G.has_edge(u, v)]: the graph is undirected. *)
Definition has_edge (g : graph) (u v : feature_id) : bool :=
  existsb (same_edge u v) (edges g).

(** Every edge carries the similarity of its endpoints, which reaches the
    threshold. *)
Definition edges_sound (ms2_spectra : dict spectrum)
  (similarity_threshold : R) (g : graph) : Prop :=
  forall u v w,
    In (u, v, w) (edges g) ->
    w = similarity ms2_spectra u v /\ similarity_threshold <= w.

(** A spectrum with every intensity multiplied by [c]. *)
Definition scale_intensities (c : R) (s : spectrum) : spectrum :=
  map (fun p => (fst p, c * snd p)) s.

(** What holds of the loop state of [extract_features_from_mzml] after any
    number of scans: every feature carries the run's stem and blank flag
    under an identity below the counters, and every fragment spectrum is
    non-empty and belongs to a feature. *)
Definition extractor_invariant (stem : string) (blank : bool)
  (st : extractor_state) : Prop :=
  (forall fid feat,
      In (fid, feat) (st_features st) ->
      file feat = stem /\ is_blank feat = blank /\
      match fid with
      | Ms1Feature s counter =>
          s = stem /\ (counter < st_feature_counter st)%nat
      | Ms2Feature s ms2_count =>
          s = stem /\ (ms2_count < st_ms2_count st)%nat
      end) /\
  (forall fid spec,
      In (fid, spec) (st_ms2_spectra st) ->
      spec <> [] /\ exists feat, In (fid, feat) (st_features st)).

(** The identities on the [FEATURE_ID] lines of an MGF file, in order. *)
Fixpoint mgf_feature_ids (writes : list mgf_write) : list feature_id :=
  match writes with
  | [] => []
  | MgfFeatureId node_id :: rest => node_id :: mgf_feature_ids rest
  | _ :: rest => mgf_feature_ids rest
  end.

(** The number of features of a table whose m/z is strictly below [m]. *)
Definition count_below (pool : dict feature) (m : R) : nat :=
  length (filter (fun entry => Rltb (mz (snd entry)) m) pool).

(* ================================================================== *)
(** * Example inputs *)
(* ================================================================== *)

Definition f0 : feature_id := Ms1Feature "run" 0.
Definition f1 : feature_id := Ms1Feature "run" 1.
Definition f2 : feature_id := Ms1Feature "run" 2.
Definition f3 : feature_id := Ms1Feature "run" 3.

(** Three features under the default ceiling whose one-peak fragment spectra
    do not overlap. *)
Definition three_features : dict feature :=
  [ (f0, Feature 100 1 1000 "run" false);
    (f1, Feature 200 2 1000 "run" false);
    (f2, Feature 300 3 1000 "run" false) ].

Definition three_spectra : dict spectrum :=
  [ (f0, [(50, 10)]); (f1, [(60, 10)]); (f2, [(70, 10)]) ].

(** Four features by ascending m/z; the first and the last share a fragment,
    and so do the two in the middle. *)
Definition four_features : dict feature :=
  [ (f0, Feature 100 1 1000 "run" false);
    (f1, Feature 200 2 1000 "run" false);
    (f2, Feature 300 3 1000 "run" false);
    (f3, Feature 400 4 1000 "run" false) ].

Definition four_spectra : dict spectrum :=
  [ (f0, [(50, 10)]); (f1, [(60, 10)]); (f2, [(60, 10)]); (f3, [(50, 10)]) ].

(** An extractor state with two sample features, and an MS2 scan whose
    precursor lies between them, closer to the second. *)
Definition two_feature_state : extractor_state :=
  ExtractorState
    [ (f0, Feature 100 1 1000 "run" false);
      (f1, Feature (100 + 1 / 16) 2 1000 "run" false) ]
    [] 2 0.

Definition ms2_scan : scan :=
  Scan 2 (Some 3) None (Some (100 + 3 / 64)) [(50, 10); (60, 20)].

(* ================================================================== *)
(** * Properties of the comparisons *)
(* ================================================================== *)

Section ComparisonFacts.

Ltac decide_R :=
  unfold truthy, Reqb, Rltb, Rleb;
  match goal with
  | |- context [Rlt_dec ?x ?y] => destruct (Rlt_dec x y)
  | |- context [Rle_dec ?x ?y] => destruct (Rle_dec x y)
  | |- context [Req_dec_T ?x ?y] => destruct (Req_dec_T x y)
  end;
  cbn; split; intros; solve [auto | discriminate | contradiction].

Lemma Rltb_true x y : Rltb x y = true <-> x < y.
Proof. decide_R. Qed.

Lemma Rleb_true x y : Rleb x y = true <-> x <= y.
Proof. decide_R. Qed.

Lemma Rltb_false x y : Rltb x y = false <-> ~ x < y.
Proof. decide_R. Qed.

Lemma Rleb_false x y : Rleb x y = false <-> ~ x <= y.
Proof. decide_R. Qed.

Lemma truthy_true x : truthy x = true <-> x <> 0.
Proof. decide_R. Qed.

Lemma truthy_false x : truthy x = false <-> x = 0.
Proof. decide_R. Qed.

End ComparisonFacts.

(* ================================================================== *)
(** * Properties of the SpectralAligner *)
(* ================================================================== *)

(** [lia] on list lengths, once the type aliases are unfolded. *)
Ltac list_lia := unfold spectrum, peak, dict in *; cbn [length] in *; lia.

Section AlignerFacts.

Lemma align_nil_r tol s1 : align tol s1 [] = remaining1 s1.
Proof. destruct s1 as [|[mz1 int1] rest1]; reflexivity. Qed.

Lemma align_cons tol mz1 int1 rest1 mz2 int2 rest2 :
  align tol ((mz1, int1) :: rest1) ((mz2, int2) :: rest2) =
  if Rle_dec (Rabs (mz1 - mz2)) tol then
    emit ((mz1 + mz2) / 2, int1) ((mz1 + mz2) / 2, int2)
         (align tol rest1 rest2)
  else if Rlt_dec mz1 mz2 then
    emit (mz1, int1) (mz1, 0) (align tol rest1 ((mz2, int2) :: rest2))
  else
    emit (mz2, 0) (mz2, int2) (align tol ((mz1, int1) :: rest1) rest2).
Proof. reflexivity. Qed.

(** Induction that follows the cursors of the walk. *)
Lemma align_induction (P : spectrum -> spectrum -> Prop) :
  (forall s2, P [] s2) ->
  (forall s1, P s1 []) ->
  (forall mz1 int1 rest1 mz2 int2 rest2,
      P rest1 rest2 ->
      P rest1 ((mz2, int2) :: rest2) ->
      P ((mz1, int1) :: rest1) rest2 ->
      P ((mz1, int1) :: rest1) ((mz2, int2) :: rest2)) ->
  forall s1 s2, P s1 s2.
Proof.
  intros Hnil1 Hnil2 Hstep.
  induction s1 as [|[mz1 int1] rest1 IH1]; [exact Hnil1|].
  induction s2 as [|[mz2 int2] rest2 IH2]; [apply Hnil2|].
  apply Hstep; auto.
Qed.

Lemma align_lengths tol s1 s2 :
  length (fst (align tol s1 s2)) = length (snd (align tol s1 s2)) /\
  (length s1 <= length (fst (align tol s1 s2)))%nat /\
  (length s2 <= length (fst (align tol s1 s2)))%nat.
Proof.
  revert s1 s2. apply align_induction.
  - intros s2. cbn. rewrite length_map. list_lia.
  - intros s1. rewrite align_nil_r. cbn. rewrite length_map. list_lia.
  - intros mz1 int1 rest1 mz2 int2 rest2 IHm IH1 IH2.
    rewrite align_cons.
    destruct (Rle_dec _ _); [|destruct (Rlt_dec _ _)]; cbn in *; list_lia.
Qed.

(** C9.  The two intensity vectors built by [cosine_similarity_ms2] from the
    aligned lists have the same length, and that length is at least
    [max(len(A), len(B))].  (It holds for all spectra, in particular for
    non-empty ones sorted by m/z.) *)
Theorem aligned_vectors_same_length_at_least_max :
  forall (tol : R) (A B : spectrum),
    let int1 := intensities (fst (align tol A B)) in
    let int2 := intensities (snd (align tol A B)) in
    length int1 = length int2 /\
    (Nat.max (length A) (length B) <= length int1)%nat.
Proof.
  intros tol A B. cbn. unfold intensities. rewrite !length_map.
  destruct (align_lengths tol A B) as (He & H1 & H2).
  split; [exact He | list_lia].
Qed.

(** ** Symmetry *)

Lemma dot_comm v1 v2 : dot v1 v2 = dot v2 v1.
Proof.
  revert v2. induction v1 as [|x v1 IH]; intros [|y v2]; cbn; try reflexivity.
  rewrite IH. ring.
Qed.

(** With a non-negative tolerance every branch decision of the walk is the
    same for [(A, B)] and [(B, A)], so the aligned lists are exchanged. *)
Lemma align_swap tol :
  0 <= tol ->
  forall s1 s2, align tol s2 s1 = swap_pair (align tol s1 s2).
Proof.
  intros Htol. apply align_induction.
  - intros s2. rewrite align_nil_r. reflexivity.
  - intros s1. rewrite align_nil_r. reflexivity.
  - intros mz1 int1 rest1 mz2 int2 rest2 IHm IH1 IH2.
    rewrite !align_cons.
    rewrite (Rabs_minus_sym mz2 mz1), (Rplus_comm mz2 mz1).
    destruct (Rle_dec (Rabs (mz1 - mz2)) tol) as [Hm|Hm].
    + rewrite IHm. reflexivity.
    + assert (Hne : mz1 <> mz2).
      { intros ->. apply Hm. rewrite Rminus_diag, Rabs_R0. exact Htol. }
      destruct (Rlt_dec mz1 mz2) as [Hlt|Hge];
        destruct (Rlt_dec mz2 mz1) as [Hlt'|Hge']; try (exfalso; lra).
      * rewrite IH1. reflexivity.
      * rewrite IH2. reflexivity.
Qed.

(** With a negative tolerance no two peaks are ever merged: every aligned
    position carries a zero on one side. *)
Lemma align_negative_tolerance_dot tol :
  tol < 0 ->
  forall s1 s2,
    dot (intensities (fst (align tol s1 s2)))
        (intensities (snd (align tol s1 s2))) = 0.
Proof.
  intros Htol. apply align_induction.
  - intros s2. unfold intensities. cbn.
    induction s2 as [|[m i] s2 IH]; cbn; [reflexivity|].
    rewrite IH. ring.
  - intros s1. rewrite align_nil_r. unfold intensities. cbn.
    induction s1 as [|[m i] s1 IH]; cbn; [reflexivity|].
    rewrite IH. ring.
  - intros mz1 int1 rest1 mz2 int2 rest2 IHm IH1 IH2.
    rewrite !align_cons.
    destruct (Rle_dec (Rabs (mz1 - mz2)) tol) as [Hm|Hm].
    + exfalso. pose proof (Rabs_pos (mz1 - mz2)). lra.
    + unfold intensities in *.
      destruct (Rlt_dec mz1 mz2); cbn [emit fst snd map dot].
      * rewrite IH1. ring.
      * rewrite IH2. ring.
Qed.

Lemma returned_value_zero_dot r :
  match r with ReturnQuotient d _ _ => d = 0 | _ => True end ->
  returned_value r = 0.
Proof.
  destruct r as [| |d n1 n2]; cbn; try reflexivity.
  intros ->. unfold Rdiv. ring.
Qed.

Lemma cosine_negative_tolerance tol s1 s2 :
  tol < 0 -> cosine_similarity_ms2 s1 s2 tol = 0.
Proof.
  intros Htol. unfold cosine_similarity_ms2. apply returned_value_zero_dot.
  unfold cosine_path.
  destruct (is_empty s1 || is_empty s2); [exact I|].
  cbv zeta.
  destruct (Req_dec_T _ 0); [exact I|].
  destruct (Req_dec_T _ 0); [exact I|].
  apply align_negative_tolerance_dot; assumption.
Qed.

Lemma cosine_symmetric tol s1 s2 :
  cosine_similarity_ms2 s1 s2 tol = cosine_similarity_ms2 s2 s1 tol.
Proof.
  destruct (Rlt_dec tol 0) as [Hneg|Hpos].
  - rewrite !cosine_negative_tolerance by assumption. reflexivity.
  - assert (Htol : 0 <= tol) by lra.
    unfold cosine_similarity_ms2, cosine_path.
    rewrite (orb_comm (is_empty s2)).
    destruct (is_empty s1 || is_empty s2); [reflexivity|].
    cbv zeta. rewrite (align_swap Htol s1 s2). cbn [swap_pair fst snd].
    set (int1 := intensities (fst (align tol s1 s2))).
    set (int2 := intensities (snd (align tol s1 s2))).
    rewrite (dot_comm int2 int1).
    destruct (Req_dec_T (norm int1) 0), (Req_dec_T (norm int2) 0);
      cbn; try reflexivity.
    rewrite (Rmult_comm (norm int2)). reflexivity.
Qed.

(** C7.  The score of [(A, B)] equals the score of [(B, A)], for every pair
    of spectra and every tolerance. *)
Theorem cosine_similarity_ms2_symmetric :
  forall (A B : spectrum) (mz_tolerance : R),
    cosine_similarity_ms2 A B mz_tolerance
    = cosine_similarity_ms2 B A mz_tolerance.
Proof.
  intros A B tol. apply cosine_symmetric.
Qed.

(** ** Degenerate inputs and the division *)

Lemma cosine_path_empty s1 s2 tol :
  s1 = [] \/ s2 = [] -> cosine_path s1 s2 tol = ReturnEmpty.
Proof.
  unfold cosine_path. intros [-> | ->]; cbn; [reflexivity|].
  rewrite orb_true_r. reflexivity.
Qed.

Lemma cosine_path_zero_norm s1 s2 tol :
  norm (intensities (fst (align tol s1 s2))) = 0
  \/ norm (intensities (snd (align tol s1 s2))) = 0 ->
  cosine_path s1 s2 tol = ReturnEmpty
  \/ cosine_path s1 s2 tol = ReturnZeroNorm.
Proof.
  unfold cosine_path. intros Hz.
  destruct (is_empty s1 || is_empty s2); [left; reflexivity|].
  cbv zeta. right.
  destruct (Req_dec_T _ 0); [reflexivity|].
  destruct (Req_dec_T _ 0); [reflexivity|].
  destruct Hz; contradiction.
Qed.

Lemma cosine_path_quotient s1 s2 tol d n1 n2 :
  cosine_path s1 s2 tol = ReturnQuotient d n1 n2 ->
  n1 = norm (intensities (fst (align tol s1 s2))) /\
  n2 = norm (intensities (snd (align tol s1 s2))) /\
  n1 <> 0 /\ n2 <> 0.
Proof.
  unfold cosine_path.
  destruct (is_empty s1 || is_empty s2); [discriminate|].
  cbv zeta.
  destruct (Req_dec_T _ 0); [discriminate|].
  destruct (Req_dec_T _ 0); [discriminate|].
  intros H. injection H as <- <- <-. auto.
Qed.

(** C8.  [cosine_similarity_ms2] returns exactly 0 when either spectrum is
    empty and when either aligned intensity vector has norm exactly zero; and
    whenever the division of line 106 is reached, both norms are nonzero, so
    its divisor [norm1 * norm2] is nonzero. *)
Theorem cosine_zero_cases_and_safe_division :
  forall (A B : spectrum) (mz_tolerance : R),
    (A = [] \/ B = [] -> cosine_similarity_ms2 A B mz_tolerance = 0) /\
    (norm (intensities (fst (align mz_tolerance A B))) = 0
     \/ norm (intensities (snd (align mz_tolerance A B))) = 0 ->
     cosine_similarity_ms2 A B mz_tolerance = 0) /\
    (forall d n1 n2,
        cosine_path A B mz_tolerance = ReturnQuotient d n1 n2 ->
        n1 <> 0 /\ n2 <> 0 /\ n1 * n2 <> 0).
Proof.
  intros A B tol. unfold cosine_similarity_ms2. repeat split.
  - intros H. rewrite (cosine_path_empty _ H). reflexivity.
  - intros H. destruct (cosine_path_zero_norm _ _ _ H) as [-> | ->];
      reflexivity.
  - apply (cosine_path_quotient _ _ _ H).
  - apply (cosine_path_quotient _ _ _ H).
  - destruct (cosine_path_quotient _ _ _ H) as (_ & _ & H1 & H2).
    apply Rmult_integral_contrapositive_currified; assumption.
Qed.

End AlignerFacts.

(* ================================================================== *)
(** * Properties of the BlankFilter *)
(* ================================================================== *)

Section BlankFilterFacts.

(** The test of lines 274-282 says what the specification says. *)
Lemma blank_hit_spec feat blank_feat threshold :
  blank_hit feat blank_feat threshold = true
  <-> spec_blank_match feat blank_feat threshold.
Proof.
  unfold blank_hit, spec_blank_match.
  destruct (truthy (rt feat)) eqn:Hs; [destruct (truthy (rt blank_feat)) eqn:Hb|];
    cbn [andb].
  - apply truthy_true in Hs, Hb.
    destruct (Rltb (Rabs (mz blank_feat - mz feat)) 0.01) eqn:Hmz;
      [apply Rltb_true in Hmz | apply Rltb_false in Hmz]; cbn [andb].
    + destruct (Rltb (Rabs (rt blank_feat - rt feat)) 0.1) eqn:Hrt;
        [apply Rltb_true in Hrt | apply Rltb_false in Hrt].
      * destruct (Rltb 0 (intensity blank_feat)) eqn:Hi;
          [apply Rltb_true in Hi | apply Rltb_false in Hi].
        -- rewrite Rltb_true. intuition.
        -- split; [discriminate|]. intros (_ & _ & ? & _). lra.
      * split; [discriminate|]. intros (_ & [?|[?|?]] & _); tauto.
    + split; [discriminate|]. tauto.
  - apply truthy_false in Hb.
    destruct (Rltb (Rabs (mz blank_feat - mz feat)) 0.01) eqn:Hmz;
      [apply Rltb_true in Hmz | apply Rltb_false in Hmz]; cbn [andb].
    + assert (H01 : Rltb 0 0.1 = true) by (apply Rltb_true; lra).
      rewrite H01.
      destruct (Rltb 0 (intensity blank_feat)) eqn:Hi;
        [apply Rltb_true in Hi | apply Rltb_false in Hi].
      * rewrite Rltb_true. intuition.
      * split; [discriminate|]. intros (_ & _ & ? & _). lra.
    + split; [discriminate|]. tauto.
  - apply truthy_false in Hs.
    destruct (Rltb (Rabs (mz blank_feat - mz feat)) 0.01) eqn:Hmz;
      [apply Rltb_true in Hmz | apply Rltb_false in Hmz]; cbn [andb].
    + assert (H01 : Rltb 0 0.1 = true) by (apply Rltb_true; lra).
      rewrite H01.
      destruct (Rltb 0 (intensity blank_feat)) eqn:Hi;
        [apply Rltb_true in Hi | apply Rltb_false in Hi].
      * rewrite Rltb_true. intuition.
      * split; [discriminate|]. intros (_ & _ & ? & _). lra.
    + split; [discriminate|]. tauto.
Qed.

(** The inner loop is a first-match search. *)
Lemma scan_blank_find feat blank_features threshold :
  scan_blank feat blank_features threshold
  = find (fun b => blank_hit feat (snd b) threshold) blank_features.
Proof.
  induction blank_features as [|[bfid bfeat] rest IH]; cbn; [reflexivity|].
  destruct (blank_hit feat bfeat threshold); [reflexivity | exact IH].
Qed.

Lemma found_in_blank_spec feat blank_features threshold :
  found_in_blank feat blank_features threshold = true
  <-> exists bfid bfeat,
        In (bfid, bfeat) blank_features
        /\ spec_blank_match feat bfeat threshold.
Proof.
  unfold found_in_blank. rewrite scan_blank_find.
  destruct (find _ blank_features) as [[bfid bfeat]|] eqn:Hf.
  - apply find_some in Hf. destruct Hf as [Hin Hhit]. cbn in Hhit.
    split; [intros _ | reflexivity].
    exists bfid, bfeat. split; [exact Hin | apply blank_hit_spec, Hhit].
  - split; [discriminate|]. intros (bfid & bfeat & Hin & Hm).
    apply blank_hit_spec in Hm.
    pose proof (find_none _ _ Hf _ Hin) as Hn. cbn in Hn. congruence.
Qed.

Lemma blank_subtraction_filter sample blank_features threshold :
  blank_subtraction sample blank_features threshold
  = filter (fun entry =>
              negb (found_in_blank (snd entry) blank_features threshold))
           sample.
Proof.
  induction sample as [|[fid feat] rest IH]; cbn; [reflexivity|].
  destruct (found_in_blank feat blank_features threshold); cbn;
    rewrite IH; reflexivity.
Qed.

(** C5.  For each sample feature the scan of the blank table stops at the
    first blank feature that matches in the specification's sense; the sample
    feature is removed exactly when such a blank feature exists; and the
    result consists of the remaining entries, unchanged and in their
    original order. *)
Theorem blank_subtraction_removes_iff_blank_match :
  forall (sample blank_features : dict feature) (threshold : R),
    (forall feat,
        scan_blank feat blank_features threshold
        = find (fun b => blank_hit feat (snd b) threshold) blank_features
        /\ forall bfeat,
            blank_hit feat bfeat threshold = true
            <-> spec_blank_match feat bfeat threshold) /\
    (forall fid feat,
        In (fid, feat) (blank_subtraction sample blank_features threshold)
        <-> In (fid, feat) sample
            /\ ~ exists bfid bfeat,
                   In (bfid, bfeat) blank_features
                   /\ spec_blank_match feat bfeat threshold) /\
    blank_subtraction sample blank_features threshold
    = filter (fun entry =>
                negb (found_in_blank (snd entry) blank_features threshold))
             sample.
Proof.
  intros sample blank_features threshold. split; [|split].
  - intros feat. split; [apply scan_blank_find|].
    intros bfeat. apply blank_hit_spec.
  - intros fid feat. rewrite blank_subtraction_filter, filter_In. cbn [snd].
    rewrite negb_true_iff, <- not_true_iff_false, found_in_blank_spec.
    reflexivity.
  - apply blank_subtraction_filter.
Qed.

End BlankFilterFacts.

(* ================================================================== *)
(** * Properties of the FeatureExtractor *)
(* ================================================================== *)

Section ExtractorFacts.

(** ** The precursor matching of lines 218-227 *)

Lemma closest_step_invariant precursor seen acc entry :
  closest_invariant precursor seen acc ->
  closest_invariant precursor (seen ++ [entry])
                    (closest_step precursor acc entry).
Proof.
  destruct entry as [fid' feat']. unfold closest_step.
  destruct (is_blank feat') eqn:Hblank.
  - (* a blank feature is skipped *)
    destruct acc as [[fid|] [d|]]; cbn; try contradiction.
    + intros (i & feat & (Hnth & Hnb & Htol & Hmin & Hfirst) & ->).
      exists i, feat. split; [|reflexivity].
      assert (Hi : (i < length seen)%nat)
        by (apply nth_error_Some; congruence).
      unfold spec_closest_feature.
      rewrite nth_error_app1 by exact Hi.
      repeat split; auto.
      * intros j f g Hj Hg.
        destruct (Nat.lt_ge_cases j (length seen)) as [Hlt|Hge].
        -- rewrite nth_error_app1 in Hj by exact Hlt. eauto.
        -- rewrite nth_error_app2 in Hj by exact Hge.
           destruct (j - length seen)%nat as [|[|k]]; cbn in Hj;
             try discriminate.
           injection Hj as <- <-. congruence.
      * intros j f g Hj Hg Hji.
        rewrite nth_error_app1 in Hj by lia. eauto.
    + intros Hnone f g Hin Hg. apply in_app_or in Hin.
      destruct Hin as [Hin|[Heq|[]]]; [eauto|].
      injection Heq as <- <-. congruence.
  - (* a sample feature is compared with the running minimum *)
    set (diff := Rabs (mz feat' - precursor)).
    assert (Hdiff : diff = precursor_diff precursor feat') by reflexivity.
    destruct acc as [[fid|] [d|]]; cbn [snd]; try contradiction.
    + intros (i & feat & (Hnth & Hnb & Htol & Hmin & Hfirst) & ->).
      assert (Hi : (i < length seen)%nat)
        by (apply nth_error_Some; congruence).
      destruct (Rltb diff (precursor_diff precursor feat)) eqn:Hlt;
        [apply Rltb_true in Hlt | apply Rltb_false in Hlt]; cbn [andb].
      * destruct (Rltb diff feature_mz_tolerance) eqn:Hin;
          [apply Rltb_true in Hin | apply Rltb_false in Hin].
        -- (* the new feature becomes the best one *)
           exists (length seen), feat'. split; [|exact Hdiff].
           unfold spec_closest_feature.
           rewrite nth_error_app2, Nat.sub_diag by lia. cbn.
           repeat split; auto; rewrite <- ?Hdiff; auto.
           ++ intros j f g Hj Hg.
              destruct (Nat.lt_ge_cases j (length seen)) as [Hl|Hge].
              ** rewrite nth_error_app1 in Hj by exact Hl.
                 specialize (Hmin _ _ _ Hj Hg). lra.
              ** rewrite nth_error_app2 in Hj by exact Hge.
                 destruct (j - length seen)%nat as [|[|k]]; cbn in Hj;
                   try discriminate.
                 injection Hj as <- <-. rewrite <- Hdiff. lra.
           ++ intros j f g Hj Hg Hjl.
              rewrite nth_error_app1 in Hj by exact Hjl.
              specialize (Hmin _ _ _ Hj Hg). lra.
        -- exfalso. lra.
      * (* the previous best is kept *)
        exists i, feat. split; [|reflexivity].
        unfold spec_closest_feature.
        rewrite nth_error_app1 by exact Hi.
        repeat split; auto.
        -- intros j f g Hj Hg.
           destruct (Nat.lt_ge_cases j (length seen)) as [Hl|Hge].
           ++ rewrite nth_error_app1 in Hj by exact Hl. eauto.
           ++ rewrite nth_error_app2 in Hj by exact Hge.
              destruct (j - length seen)%nat as [|[|k]]; cbn in Hj;
                try discriminate.
              injection Hj as <- <-. rewrite <- Hdiff. lra.
        -- intros j f g Hj Hg Hji.
           rewrite nth_error_app1 in Hj by lia. eauto.
    + intros Hnone. cbn [andb].
      destruct (Rltb diff feature_mz_tolerance) eqn:Hin;
        [apply Rltb_true in Hin | apply Rltb_false in Hin].
      * exists (length seen), feat'. split; [|exact Hdiff].
        unfold spec_closest_feature.
        rewrite nth_error_app2, Nat.sub_diag by lia. cbn.
        repeat split; auto; rewrite <- ?Hdiff; auto.
        -- intros j f g Hj Hg.
           destruct (Nat.lt_ge_cases j (length seen)) as [Hl|Hge].
           ++ rewrite nth_error_app1 in Hj by exact Hl.
              apply nth_error_In in Hj.
              specialize (Hnone _ _ Hj Hg). lra.
           ++ rewrite nth_error_app2 in Hj by exact Hge.
              destruct (j - length seen)%nat as [|[|k]]; cbn in Hj;
                try discriminate.
              injection Hj as <- <-. rewrite <- Hdiff. lra.
        -- intros j f g Hj Hg Hjl.
           rewrite nth_error_app1 in Hj by exact Hjl.
           apply nth_error_In in Hj.
           specialize (Hnone _ _ Hj Hg). lra.
      * intros f g Hi Hg. apply in_app_or in Hi.
        destruct Hi as [Hi|[Heq|[]]]; [eauto|].
        injection Heq as <- <-. exact Hin.
Qed.

Lemma closest_fold_invariant precursor features :
  forall seen acc,
    closest_invariant precursor seen acc ->
    closest_invariant precursor (seen ++ features)
                      (fold_left (closest_step precursor) features acc).
Proof.
  induction features as [|entry rest IH]; intros seen acc Hinv; cbn.
  - rewrite app_nil_r. exact Hinv.
  - replace (seen ++ entry :: rest) with ((seen ++ [entry]) ++ rest)
      by (rewrite <- app_assoc; reflexivity).
    apply IH, closest_step_invariant, Hinv.
Qed.

Lemma find_best_feature_spec features precursor :
  match find_best_feature features precursor with
  | Some fid =>
      exists i feat, spec_closest_feature features precursor i fid feat
  | None =>
      forall fid feat, In (fid, feat) features -> is_blank feat = false ->
                       ~ precursor_diff precursor feat < feature_mz_tolerance
  end.
Proof.
  unfold find_best_feature.
  assert (H0 : closest_invariant precursor [] (None, None))
    by (intros fid feat []).
  pose proof (closest_fold_invariant precursor features [] _ H0) as H.
  cbn [app] in H.
  destruct (fold_left (closest_step precursor) features (None, None))
    as [[fid|] [d|]]; cbn in *; try contradiction.
  - destruct H as (i & feat & Hs & _). eauto.
  - exact H.
Qed.

(** The closest-first feature is unique, so it is the one the loop finds. *)
Lemma spec_closest_feature_found features precursor i fid feat :
  spec_closest_feature features precursor i fid feat ->
  find_best_feature features precursor = Some fid.
Proof.
  intros (Hnth & Hnb & Htol & Hmin & Hfirst).
  pose proof (find_best_feature_spec features precursor) as Hspec.
  destruct (find_best_feature features precursor) as [fid'|].
  - destruct Hspec as (i' & feat' & Hnth' & Hnb' & Htol' & Hmin' & Hfirst').
    destruct (Nat.lt_trichotomy i i') as [Hlt|[Heq|Hgt]].
    + specialize (Hfirst' _ _ _ Hnth Hnb Hlt).
      specialize (Hmin _ _ _ Hnth' Hnb'). lra.
    + subst i'. congruence.
    + specialize (Hfirst _ _ _ Hnth' Hnb' Hgt).
      specialize (Hmin' _ _ _ Hnth Hnb). lra.
  - exfalso. apply (Hspec fid feat); auto.
    eapply nth_error_In; eauto.
Qed.

Lemma process_ms2_step stem blank st sp precursor first others :
  ms_level sp = 2%Z ->
  precursor_mz sp = Some precursor ->
  peaks sp = first :: others ->
  filter_peaks first others <> [] ->
  process_scan stem blank st sp =
  match find_best_feature (st_features st) precursor with
  | Some best_feature =>
      ExtractorState
        (st_features st)
        (dict_set (st_ms2_spectra st) best_feature
                  (filter_peaks first others))
        (st_feature_counter st) (S (st_ms2_count st))
  | None =>
      if negb blank then
        ExtractorState
          (dict_set (st_features st) (Ms2Feature stem (st_ms2_count st))
             (Feature precursor (rt_or_zero (scan_rt sp))
                      (sum_intensity (filter_peaks first others)) stem blank))
          (dict_set (st_ms2_spectra st) (Ms2Feature stem (st_ms2_count st))
                    (filter_peaks first others))
          (st_feature_counter st) (S (st_ms2_count st))
      else st
  end.
Proof.
  intros Hlevel Hprec Hpeaks Hfiltered.
  unfold process_scan, process_ms2. rewrite Hlevel, Hprec, Hpeaks.
  change (2 =? 1)%Z with false. change (2 =? 2)%Z with true. cbv iota.
  destruct (filter_peaks first others); [contradiction | reflexivity].
Qed.

(** ** Blank runs *)

Lemma fold_left_invariant (A B : Type) (f : A -> B -> A) (P : A -> Prop) :
  (forall a b, P a -> P (f a b)) ->
  forall l a, P a -> P (fold_left f l a).
Proof.
  intros Hstep. induction l as [|b l IH]; intros a Ha; cbn; auto.
Qed.

Lemma dict_set_In (V : Type) (d : dict V) k v k' v' :
  In (k', v') (dict_set d k v) -> In (k', v') d \/ (k' = k /\ v' = v).
Proof.
  induction d as [|[k0 v0] d IH]; cbn.
  - intros [H|[]]. injection H as <- <-. auto.
  - unfold fid_eqb. destruct (feature_id_eq_dec k k0) as [->|Hne]; cbn.
    + intros [H|H]; [injection H as <- <-|]; auto.
    + intros [H|H]; [auto|]. destruct (IH H) as [?|?]; auto.
Qed.

Lemma find_best_feature_all_blank features precursor :
  (forall fid feat, In (fid, feat) features -> is_blank feat = true) ->
  find_best_feature features precursor = None.
Proof.
  intros Hall.
  pose proof (find_best_feature_spec features precursor) as Hspec.
  destruct (find_best_feature features precursor) as [fid|]; [|reflexivity].
  destruct Hspec as (i & feat & Hnth & Hnb & _).
  apply nth_error_In in Hnth. rewrite (Hall _ _ Hnth) in Hnb. discriminate.
Qed.

(** The state of a blank run: no fragment list, and only blank MS1
    features. *)
Lemma blank_run_step stem st sp :
  blank_run_invariant stem st ->
  blank_run_invariant stem (process_scan stem true st sp).
Proof.
  intros [Hms2 Hfeat]. unfold process_scan.
  destruct (ms_level sp =? 1)%Z.
  - unfold process_ms1. destruct (peaks sp) as [|first others]; [split; auto|].
    destruct (Rltb 0 (snd (base_peak_of first others))); [|split; auto].
    split; cbn; [exact Hms2|].
    intros fid feat Hin. apply dict_set_In in Hin.
    destruct Hin as [Hin|[-> ->]]; [auto|]. cbn. eauto.
  - destruct (ms_level sp =? 2)%Z; [|split; auto].
    unfold process_ms2.
    destruct (precursor_mz sp) as [precursor|]; [|split; auto].
    destruct (peaks sp) as [|first others]; [split; auto|].
    destruct (filter_peaks first others) as [|p filtered]; [split; auto|].
    rewrite find_best_feature_all_blank; [cbn; split; auto|].
    intros fid feat Hin. apply (Hfeat _ _ Hin).
Qed.

(** C10.  A run processed with the blank flag set returns an empty fragment
    table, and every feature it returns is a blank MS1 feature: no feature is
    ever synthesised from an MS2 scan. *)
Theorem blank_run_has_no_fragments :
  forall (stem : string) (run : list scan),
    snd (extract_features_from_mzml stem true run) = [] /\
    forall fid feat,
      In (fid, feat) (fst (extract_features_from_mzml stem true run)) ->
      (exists counter, fid = Ms1Feature stem counter)
      /\ is_blank feat = true.
Proof.
  intros stem run. unfold extract_features_from_mzml, run_extractor. cbn.
  assert (H : blank_run_invariant stem
                (fold_left (process_scan stem true) run initial_state)).
  { apply fold_left_invariant.
    - intros st sp. apply blank_run_step.
    - split; [reflexivity | intros fid feat []]. }
  destruct H as [Hms2 Hfeat]. split; [exact Hms2|].
  intros fid feat Hin. destruct (Hfeat _ _ Hin) as [? ?]. auto.
Qed.

End ExtractorFacts.

(* ================================================================== *)
(** * Properties of [sorted] and of slices *)
(* ================================================================== *)

Section SortFacts.

Variable A : Type.
Variable le : A -> A -> bool.

Lemma insert_sorted_perm x l : Permutation (insert_sorted le x l) (x :: l).
Proof.
  induction l as [|y l IH]; cbn; [reflexivity|].
  destruct (le x y); [reflexivity|].
  rewrite IH. apply perm_swap.
Qed.

Lemma sorted_perm l : Permutation (sorted le l) l.
Proof.
  induction l as [|x l IH]; cbn; [reflexivity|].
  rewrite insert_sorted_perm. apply perm_skip, IH.
Qed.

Lemma sorted_length l : length (sorted le l) = length l.
Proof. apply Permutation_length, sorted_perm. Qed.

Lemma sorted_In x l : In x (sorted le l) <-> In x l.
Proof.
  split; apply Permutation_in; [|symmetry]; apply sorted_perm.
Qed.

(** Stability: elements that the order does not separate keep their
    relative order. *)
Lemma insert_sorted_filter (p : A -> bool) x l :
  (forall a b, p a = true -> p b = true -> le a b = true) ->
  filter p (insert_sorted le x l) = filter p (x :: l).
Proof.
  intros Hp. induction l as [|y l IH]; cbn; [reflexivity|].
  destruct (le x y) eqn:Hxy; cbn; [reflexivity|].
  cbn in IH. rewrite IH.
  destruct (p x) eqn:Hx, (p y) eqn:Hy; try reflexivity.
  rewrite (Hp _ _ Hx Hy) in Hxy. discriminate.
Qed.

Lemma sorted_stable (p : A -> bool) l :
  (forall a b, p a = true -> p b = true -> le a b = true) ->
  filter p (sorted le l) = filter p l.
Proof.
  intros Hp. induction l as [|x l IH]; cbn; [reflexivity|].
  rewrite insert_sorted_filter by exact Hp. cbn. rewrite IH. reflexivity.
Qed.

Hypothesis le_total : forall a b, le a b = true \/ le b a = true.
Hypothesis le_trans :
  forall a b c, le a b = true -> le b c = true -> le a c = true.

Lemma insert_sorted_ordered x l :
  StronglySorted (fun a b => le a b = true) l ->
  StronglySorted (fun a b => le a b = true) (insert_sorted le x l).
Proof.
  induction 1 as [|y l Hs IH Hall]; cbn.
  - constructor; constructor.
  - destruct (le x y) eqn:Hxy.
    + constructor; [constructor; assumption|].
      constructor; [exact Hxy|].
      rewrite Forall_forall in *. intros z Hz. eauto.
    + constructor; [exact IH|].
      assert (Hyx : le y x = true)
        by (destruct (le_total x y); congruence).
      rewrite Forall_forall in *. intros z Hz.
      apply (Permutation_in _ (insert_sorted_perm x l)) in Hz.
      destruct Hz as [<-|Hz]; auto.
Qed.

Lemma sorted_ordered l :
  StronglySorted (fun a b => le a b = true) (sorted le l).
Proof.
  induction l as [|x l IH]; cbn; [constructor|].
  apply insert_sorted_ordered, IH.
Qed.

End SortFacts.

Section SliceFacts.

Variable A : Type.

Lemma py_slice_to_nonneg (l : list A) k :
  (0 <= k)%Z -> py_slice_to l k = firstn (Z.to_nat k) l.
Proof.
  intros Hk. unfold py_slice_to.
  destruct (k <? 0)%Z eqn:E; [apply Z.ltb_lt in E; lia | reflexivity].
Qed.

Lemma firstn_subset n (l : list A) x : In x (firstn n l) -> In x l.
Proof.
  revert l. induction n as [|n IH]; intros [|y l]; cbn; try tauto.
  intros [H|H]; auto.
Qed.

Lemma py_slice_to_incl (l : list A) k x : In x (py_slice_to l k) -> In x l.
Proof.
  unfold py_slice_to. destruct (k <? 0)%Z; apply firstn_subset.
Qed.

Lemma py_slice_to_length (l : list A) k :
  (0 <= k)%Z -> (length (py_slice_to l k) <= Z.to_nat k)%nat.
Proof.
  intros Hk. rewrite py_slice_to_nonneg by exact Hk. apply firstn_le_length.
Qed.

Lemma py_slice_to_nil k : py_slice_to (@nil A) k = [].
Proof.
  unfold py_slice_to. destruct (k <? 0)%Z; apply firstn_nil.
Qed.

Lemma py_slice_to_all (l : list A) k :
  (Z.of_nat (length l) <= k)%Z -> py_slice_to l k = l.
Proof.
  intros Hk. rewrite py_slice_to_nonneg by lia.
  apply firstn_all2. lia.
Qed.

End SliceFacts.

(* ================================================================== *)
(** * Properties of the graph operations *)
(* ================================================================== *)

Section GraphFacts.

Lemma fid_eqb_true a b : fid_eqb a b = true <-> a = b.
Proof.
  unfold fid_eqb. destruct (feature_id_eq_dec a b); split; auto; discriminate.
Qed.

Lemma fid_eqb_refl a : fid_eqb a a = true.
Proof. apply fid_eqb_true. reflexivity. Qed.

Lemma fid_in_true a l : fid_in a l = true <-> In a l.
Proof.
  unfold fid_in. rewrite existsb_exists. split.
  - intros (x & Hin & Heq). apply fid_eqb_true in Heq. subst. exact Hin.
  - intros Hin. exists a. split; [exact Hin | apply fid_eqb_refl].
Qed.

Lemma fid_in_false a l : fid_in a l = false <-> ~ In a l.
Proof.
  rewrite <- fid_in_true. destruct (fid_in a l); split; congruence.
Qed.

Lemma add_node_nodes n g x :
  In x (nodes (add_node n g)) <-> In x (nodes g) \/ x = n.
Proof.
  unfold add_node, has_node. destruct (fid_in n (nodes g)) eqn:E; cbn.
  - apply fid_in_true in E. split; [auto|]. intros [H| ->]; auto.
  - rewrite in_app_iff. cbn. intuition.
Qed.

Lemma add_node_edges n g : edges (add_node n g) = edges g.
Proof. unfold add_node. destruct (has_node g n); reflexivity. Qed.

Lemma add_node_wf n g : wf_graph g -> wf_graph (add_node n g).
Proof.
  intros [Hnd Hed]. split.
  - unfold add_node, has_node. destruct (fid_in n (nodes g)) eqn:E; cbn.
    + exact Hnd.
    + apply fid_in_false in E.
      apply (Permutation_NoDup (Permutation_cons_append (nodes g) n)).
      constructor; assumption.
  - intros u v w. rewrite add_node_edges, !add_node_nodes.
    intros H. destruct (Hed _ _ _ H). auto.
Qed.

Lemma add_edge_nodes u v w g x :
  In x (nodes (add_edge u v w g)) <-> In x (nodes g) \/ x = u \/ x = v.
Proof.
  unfold add_edge.
  destruct (existsb _ _); cbn; rewrite !add_node_nodes; tauto.
Qed.

Lemma add_edge_wf u v w g : wf_graph g -> wf_graph (add_edge u v w g).
Proof.
  intros Hwf.
  assert (Hwf' : wf_graph (add_node v (add_node u g)))
    by (apply add_node_wf, add_node_wf, Hwf).
  destruct Hwf' as [Hnd Hed]. unfold add_edge.
  destruct (existsb _ _); split; cbn; try exact Hnd.
  - intros a b c Hin. apply in_map_iff in Hin.
    destruct Hin as ([[a' b'] c'] & Heq & Hin).
    destruct (same_edge u v (a', b', c')); cbn in Heq;
      injection Heq as <- <- <-; eauto.
  - intros a b c Hin. apply in_app_or in Hin.
    destruct Hin as [Hin|[Heq|[]]]; [eauto|].
    injection Heq as <- <- <-. rewrite !add_node_nodes. auto.
Qed.

Lemma add_edges_from_wf ms2 thr fid1 later g :
  wf_graph g -> wf_graph (add_edges_from ms2 thr fid1 later g).
Proof.
  unfold add_edges_from. revert g.
  induction later as [|fid2 later IH]; intros g Hwf; cbn; [exact Hwf|].
  apply IH. destruct (Rleb thr _); [apply add_edge_wf|]; exact Hwf.
Qed.

Lemma add_edges_wf ms2 thr feature_list g :
  wf_graph g -> wf_graph (add_edges ms2 thr feature_list g).
Proof.
  revert g. induction feature_list as [|fid1 later IH]; intros g Hwf; cbn.
  - exact Hwf.
  - apply IH, add_edges_from_wf, Hwf.
Qed.

Lemma add_singletons_wf selected g :
  wf_graph g -> wf_graph (add_singletons selected g).
Proof.
  unfold add_singletons. revert g.
  induction selected as [|fid rest IH]; intros g Hwf; cbn; [exact Hwf|].
  apply IH, add_node_wf, Hwf.
Qed.

Lemma add_singletons_nodes selected g x :
  In x (nodes (add_singletons selected g))
  <-> In x (nodes g) \/ In x selected.
Proof.
  unfold add_singletons. revert g.
  induction selected as [|fid rest IH]; intros g; cbn; [tauto|].
  rewrite IH, add_node_nodes. intuition.
Qed.

Lemma add_singletons_edges selected g :
  edges (add_singletons selected g) = edges g.
Proof.
  unfold add_singletons. revert g.
  induction selected as [|fid rest IH]; intros g; cbn; [reflexivity|].
  rewrite IH. apply add_node_edges.
Qed.

Lemma subgraph_nodes g selected x :
  In x (nodes (subgraph g selected)) <-> In x (nodes g) /\ In x selected.
Proof. cbn. rewrite filter_In, fid_in_true. reflexivity. Qed.

Lemma subgraph_edges g selected u v w :
  In (u, v, w) (edges (subgraph g selected))
  <-> In (u, v, w) (edges g) /\ In u selected /\ In v selected.
Proof.
  cbn. rewrite filter_In, andb_true_iff, !fid_in_true. reflexivity.
Qed.

Lemma subgraph_wf g selected : wf_graph g -> wf_graph (subgraph g selected).
Proof.
  intros [Hnd Hed]. split.
  - cbn. apply NoDup_filter, Hnd.
  - intros u v w. rewrite subgraph_edges, !subgraph_nodes.
    intros (Hin & Hu & Hv). destruct (Hed _ _ _ Hin). auto.
Qed.

Lemma subgraph_size g selected :
  wf_graph g ->
  (number_of_nodes (subgraph g selected) <= length selected)%nat.
Proof.
  intros Hwf. unfold number_of_nodes.
  apply NoDup_incl_length.
  - apply (subgraph_wf selected Hwf).
  - intros x Hx. apply subgraph_nodes in Hx. tauto.
Qed.

Lemma empty_graph_wf : wf_graph empty_graph.
Proof. split; [constructor | intros u v w []]. Qed.

End GraphFacts.

(* ================================================================== *)
(** * Properties of the NetworkBuilder *)
(* ================================================================== *)

Section NetworkFacts.

(** ** The quota of connected nodes *)

Lemma quota_checked :
  forallb quota_in_range (seq 0 (S (Z.to_nat max_num_nodes))) = true.
Proof. vm_compute. reflexivity. Qed.

Lemma num_connected_range N :
  (0 <= N <= max_num_nodes)%Z -> (0 <= num_connected_of N <= N)%Z.
Proof.
  intros [H0 Hmax].
  pose proof (proj1 (forallb_forall _ _) quota_checked (Z.to_nat N)) as H.
  unfold quota_in_range in H. rewrite Z2Nat.id in H by exact H0.
  assert (Hin : In (Z.to_nat N) (seq 0 (S (Z.to_nat max_num_nodes))))
    by (apply in_seq; lia).
  apply H in Hin. apply andb_true_iff in Hin.
  destruct Hin as [Hlo Hhi]. apply Z.leb_le in Hlo, Hhi. lia.
Qed.

(** In the caller's range the quota is [floor(7 * N / 10)], except at
    [N = 90], where the binary64 product [90 * 0.7] falls just below 63. *)
Lemma num_connected_floor N :
  (0 <= N <= max_num_nodes)%Z ->
  num_connected_of N = if (N =? 90)%Z then 62%Z else (7 * N / 10)%Z.
Proof.
  intros [H0 Hmax].
  assert (Hall : forallb
                   (fun n => (num_connected_of (Z.of_nat n)
                              =? if (Z.of_nat n =? 90) then 62
                                 else 7 * Z.of_nat n / 10)%Z)
                   (seq 0 (S (Z.to_nat max_num_nodes))) = true)
    by (vm_compute; reflexivity).
  pose proof (proj1 (forallb_forall _ _) Hall (Z.to_nat N)) as H.
  cbv beta in H. rewrite Z2Nat.id in H by exact H0.
  apply Z.eqb_eq, H, in_seq. lia.
Qed.

(** ** The selection of lines 383-399 *)

Lemma selected_connected_firstn g N :
  (0 <= N <= max_num_nodes)%Z ->
  selected_connected_of g N
  = firstn (Z.to_nat (num_connected_of N)) (connected_nodes_sorted g).
Proof.
  intros HN. apply py_slice_to_nonneg.
  pose proof (num_connected_range HN). lia.
Qed.

Lemma selected_singletons_firstn g feature_list N :
  (0 <= N <= max_num_nodes)%Z ->
  selected_singletons_of g feature_list N
  = firstn (Z.to_nat (N - num_connected_of N))
           (singleton_candidates g feature_list).
Proof.
  intros HN. apply py_slice_to_nonneg.
  pose proof (num_connected_range HN). unfold num_singletons_of. lia.
Qed.

(** The two groups never exceed [num_nodes] together, so the trim of lines
    397-399 leaves them as they are. *)
Lemma selected_nodes_untrimmed g feature_list N :
  (0 <= N <= max_num_nodes)%Z ->
  selected_nodes_of (selected_connected_of g N)
                    (selected_singletons_of g feature_list N) N
  = selected_connected_of g N ++ selected_singletons_of g feature_list N.
Proof.
  intros HN. pose proof (num_connected_range HN) as Hq.
  unfold selected_nodes_of.
  destruct (N <? _)%Z eqn:E; [|reflexivity].
  apply Z.ltb_lt in E. rewrite length_app in E.
  rewrite selected_connected_firstn, selected_singletons_firstn in E
    by exact HN.
  pose proof (firstn_le_length (Z.to_nat (num_connected_of N))
                (connected_nodes_sorted g)).
  pose proof (firstn_le_length (Z.to_nat (N - num_connected_of N))
                (singleton_candidates g feature_list)).
  lia.
Qed.

Lemma selected_nodes_length selected_connected selected_singletons N :
  (0 <= N <= max_num_nodes)%Z ->
  (Z.of_nat (length (selected_nodes_of selected_connected
                                       selected_singletons N)) <= N)%Z.
Proof.
  intros HN. pose proof (num_connected_range HN) as Hq.
  unfold selected_nodes_of.
  destruct (N <? _)%Z eqn:E.
  - rewrite length_app.
    pose proof (@py_slice_to_length _ selected_connected
                  (num_connected_of N)).
    pose proof (@py_slice_to_length _ selected_singletons
                  (N - num_connected_of N)%Z).
    lia.
  - apply Z.ltb_ge in E. exact E.
Qed.

Lemma build_network_wf pool ms2 N thr :
  wf_graph (build_network pool ms2 N thr).
Proof.
  unfold build_network.
  apply subgraph_wf, add_singletons_wf, add_edges_wf, empty_graph_wf.
Qed.

Lemma build_network_size pool ms2 N thr :
  (0 <= N <= max_num_nodes)%Z ->
  (Z.of_nat (number_of_nodes (build_network pool ms2 N thr)) <= N)%Z.
Proof.
  intros HN. unfold build_network.
  set (fl := feature_list_of pool N).
  set (G := add_edges ms2 thr fl empty_graph).
  set (sel := selected_nodes_of _ _ N).
  pose proof (@subgraph_size
                (add_singletons (selected_singletons_of G fl N) G) sel) as Hs.
  pose proof (@selected_nodes_length (selected_connected_of G N)
                (selected_singletons_of G fl N) N HN) as Hl.
  fold sel in Hl.
  assert (wf_graph (add_singletons (selected_singletons_of G fl N) G))
    by (apply add_singletons_wf, add_edges_wf, empty_graph_wf).
  specialize (Hs H). lia.
Qed.

Lemma clamp_num_nodes_range pool_size N :
  (0 <= N <= max_num_nodes)%Z ->
  (0 <= clamp_num_nodes pool_size N <= max_num_nodes)%Z.
Proof.
  intros HN. unfold clamp_num_nodes.
  destruct (Z.of_nat pool_size <? N)%Z eqn:E; [apply Z.ltb_lt in E|]; lia.
Qed.

(** C4.  For a requested node count in the caller's range, the returned
    network has at most [N] nodes, [N] being the count after the clamp to
    the size of the filtered pool, and both endpoints of each of its edges
    are nodes of it. *)
Theorem create_network_bounded_and_closed :
  forall (features : dict feature) (ms2_spectra : dict spectrum)
         (num_nodes : Z) (similarity_threshold max_mz : R),
    (0 <= num_nodes <= max_num_nodes)%Z ->
    let G := fst (create_network features ms2_spectra num_nodes
                                 similarity_threshold max_mz) in
    let N := clamp_num_nodes
               (length (features_with_ms2 features ms2_spectra max_mz))
               num_nodes in
    (Z.of_nat (number_of_nodes G) <= N)%Z /\
    forall u v w, In (u, v, w) (edges G) -> In u (nodes G) /\ In v (nodes G).
Proof.
  intros features ms2 num_nodes thr max_mz HN G N.
  pose proof (clamp_num_nodes_range
                (length (features_with_ms2 features ms2 max_mz)) HN) as HC.
  fold N in HC. subst G. unfold create_network.
  destruct (is_empty (features_with_ms2_all features ms2)).
  - cbn. split; [lia | intros u v w []].
  - destruct (length (features_with_ms2 features ms2 max_mz) =? 0)%nat.
    + cbn. split; [lia | intros u v w []].
    + cbn [fst]. fold N. split.
      * apply build_network_size. exact HC.
      * apply build_network_wf.
Qed.

Lemma connected_nodes_sorted_In g x :
  In x (connected_nodes_sorted g)
  <-> In x (nodes g) /\ (0 < degree g x)%nat.
Proof.
  unfold connected_nodes_sorted, connected_nodes.
  rewrite sorted_In, filter_In, Nat.ltb_lt. reflexivity.
Qed.

Lemma build_network_nodes pool ms2 N thr x :
  (0 <= N <= max_num_nodes)%Z ->
  let feature_list := feature_list_of pool N in
  let G := add_edges ms2 thr feature_list empty_graph in
  In x (nodes (build_network pool ms2 N thr))
  <-> In x (selected_connected_of G N)
      \/ In x (selected_singletons_of G feature_list N).
Proof.
  intros HN fl G. unfold build_network. fold fl. fold G.
  rewrite selected_nodes_untrimmed by exact HN.
  rewrite subgraph_nodes, add_singletons_nodes, in_app_iff.
  split; [tauto|]. intros [Hc|Hs]; [|tauto].
  split; [left | tauto].
  apply py_slice_to_incl, connected_nodes_sorted_In in Hc. tauto.
Qed.

(** ** The ranking of line 381 *)

Lemma degree_ge_total g a b :
  degree_ge g a b = true \/ degree_ge g b a = true.
Proof. unfold degree_ge. rewrite !Nat.leb_le. lia. Qed.

Lemma degree_ge_trans g a b c :
  degree_ge g a b = true -> degree_ge g b c = true -> degree_ge g a c = true.
Proof. unfold degree_ge. rewrite !Nat.leb_le. lia. Qed.

(** C3, as the code has it.  The ranking lists exactly the nodes of positive
    degree, by descending degree; nodes of equal degree keep the order they
    have in [G.nodes()], the order in which the graph received them. *)
Theorem connected_ranking_stable_in_graph_order :
  forall (g : graph),
    (forall x, In x (connected_nodes_sorted g)
               <-> In x (nodes g) /\ (0 < degree g x)%nat) /\
    StronglySorted (fun a b => (degree g b <= degree g a)%nat)
                   (connected_nodes_sorted g) /\
    forall d,
      filter (fun x => (degree g x =? d)%nat) (connected_nodes_sorted g)
      = filter (fun x => (degree g x =? d)%nat)
               (filter (fun x => (0 <? degree g x)%nat) (nodes g)).
Proof.
  intros g. split; [|split].
  - intros x. apply connected_nodes_sorted_In.
  - pose proof (sorted_ordered (degree_ge g) (@degree_ge_total g)
                  (@degree_ge_trans g) (connected_nodes g)) as Hs.
    unfold connected_nodes_sorted.
    induction Hs as [|a l Hs IH Hall]; constructor; [exact IH|].
    rewrite Forall_forall in *. intros b Hb.
    apply Nat.leb_le, (Hall b Hb).
  - intros d. unfold connected_nodes_sorted, connected_nodes.
    apply sorted_stable. intros a b Ha Hb.
    apply Nat.eqb_eq in Ha, Hb. unfold degree_ge.
    apply Nat.leb_le. lia.
Qed.

(** ** Pools without any edge *)

Lemma filter_all (A : Type) (f : A -> bool) (l : list A) :
  (forall x, In x l -> f x = true) -> filter f l = l.
Proof.
  induction l as [|x l IH]; intros H; cbn; [reflexivity|].
  rewrite (H x) by (left; reflexivity).
  rewrite IH; [reflexivity|]. intros y Hy. apply H. right. exact Hy.
Qed.

Lemma add_edges_from_none ms2 thr fid1 later g :
  (forall fid2, In fid2 later ->
                Rleb thr (similarity ms2 fid1 fid2) = false) ->
  add_edges_from ms2 thr fid1 later g = g.
Proof.
  unfold add_edges_from.
  induction later as [|fid2 later IH]; intros H; cbn; [reflexivity|].
  rewrite (H fid2) by (left; reflexivity).
  apply IH. intros x Hx. apply H. right. exact Hx.
Qed.

Lemma add_edges_none ms2 thr feature_list g :
  NoDup feature_list ->
  (forall a b, In a feature_list -> In b feature_list -> a <> b ->
               Rleb thr (similarity ms2 a b) = false) ->
  add_edges ms2 thr feature_list g = g.
Proof.
  induction 1 as [|fid1 later Hnotin Hnd IH]; intros H; cbn; [reflexivity|].
  rewrite add_edges_from_none.
  - apply IH. intros a b Ha Hb. apply H; right; assumption.
  - intros fid2 Hin. apply H; [left; reflexivity | right; exact Hin|].
    intros ->. contradiction.
Qed.

Lemma mz_le_total a b : mz_le a b = true \/ mz_le b a = true.
Proof. unfold mz_le. rewrite !Rleb_true. lra. Qed.

Lemma mz_le_trans a b c :
  mz_le a b = true -> mz_le b c = true -> mz_le a c = true.
Proof. unfold mz_le. rewrite !Rleb_true. lra. Qed.

(** Without edges the network consists of the first [N - int(N * 0.7)]
    candidates, as isolated nodes. *)
Lemma build_network_without_edges pool ms2 N thr :
  (0 <= N <= max_num_nodes)%Z ->
  add_edges ms2 thr (feature_list_of pool N) empty_graph = empty_graph ->
  NoDup (feature_list_of pool N) ->
  build_network pool ms2 N thr
  = Graph (firstn (Z.to_nat (N - num_connected_of N))
                  (feature_list_of pool N)) [].
Proof.
  intros HN Hnone Hnd. pose proof (num_connected_range HN) as Hq.
  unfold build_network. rewrite Hnone.
  set (fl := feature_list_of pool N) in *.
  assert (Hsc : selected_connected_of empty_graph N = []).
  { unfold selected_connected_of. cbn.
    rewrite py_slice_to_nonneg by lia. apply firstn_nil. }
  assert (Hss : selected_singletons_of empty_graph fl N
                = firstn (Z.to_nat (N - num_connected_of N)) fl).
  { rewrite selected_singletons_firstn by exact HN.
    unfold singleton_candidates. rewrite filter_all; [reflexivity|].
    intros x _. reflexivity. }
  pose proof (selected_nodes_untrimmed empty_graph fl HN) as Hsel.
  rewrite Hsc, Hss in *. cbn [app] in Hsel. rewrite Hsel.
  set (sel := firstn _ fl).
  assert (Hsel_nd : NoDup sel).
  { subst sel. rewrite <- (firstn_skipn (Z.to_nat (N - num_connected_of N)) fl)
      in Hnd. apply NoDup_app_remove_r in Hnd. exact Hnd. }
  clearbody sel. clear Hsel Hss Hsc.
  assert (Hadd : forall l g, NoDup (nodes g ++ l) ->
                             add_singletons l g
                             = Graph (nodes g ++ l) (edges g)).
  { unfold add_singletons. induction l as [|x l IH]; intros g Hg; cbn.
    - rewrite app_nil_r. destruct g; reflexivity.
    - assert (Hx : has_node g x = false).
      { apply fid_in_false. intros Hin.
        apply NoDup_remove_2 in Hg. apply Hg, in_or_app. auto. }
      unfold add_node at 2. rewrite Hx. rewrite IH; cbn.
      + rewrite <- app_assoc. reflexivity.
      + rewrite <- app_assoc. exact Hg. }
  rewrite Hadd by exact Hsel_nd. cbn.
  unfold subgraph. cbn. rewrite filter_all; [reflexivity|].
  intros x Hx. apply fid_in_true, Hx.
Qed.

Lemma feature_list_of_all pool N :
  (Z.of_nat (length pool) <= N * 2)%Z ->
  feature_list_of pool N = map fst (sorted mz_le pool).
Proof.
  intros H. unfold feature_list_of. rewrite py_slice_to_all; [reflexivity|].
  rewrite sorted_length. exact H.
Qed.

(** The three-feature scenario, for any three features. *)
Lemma three_isolated_features features ms2 num_nodes thr max_mz :
  length features = 3%nat ->
  NoDup (map fst features) ->
  (forall fid feat, In (fid, feat) features ->
                    dict_mem fid ms2 = true /\ mz feat <= max_mz) ->
  (forall a b, In a (map fst features) -> In b (map fst features) ->
               a <> b -> ~ thr <= similarity ms2 a b) ->
  (3 <= num_nodes)%Z ->
  let G := fst (create_network features ms2 num_nodes thr max_mz) in
  number_of_nodes G = 1%nat /\
  number_of_edges G = 0%nat /\
  exists fid feat,
    nodes G = [fid] /\ In (fid, feat) features /\
    forall fid' feat', In (fid', feat') features -> mz feat <= mz feat'.
Proof.
  intros Hlen Hnd Hok Hsim HN G. subst G. unfold create_network.
  assert (Hall : features_with_ms2_all features ms2 = features).
  { apply filter_all. intros [fid feat] Hin. apply (Hok _ _ Hin). }
  assert (Hpool : features_with_ms2 features ms2 max_mz = features).
  { unfold features_with_ms2. rewrite Hall. apply filter_all.
    intros [fid feat] Hin. apply Rleb_true, (Hok _ _ Hin). }
  rewrite Hall, Hpool, Hlen.
  destruct features as [|e1 [|e2 [|e3 [|e4 rest]]]]; try discriminate.
  cbn [is_empty Nat.eqb fst].
  assert (Hclamp : clamp_num_nodes 3 num_nodes = 3%Z).
  { unfold clamp_num_nodes.
    destruct (Z.of_nat 3 <? num_nodes)%Z eqn:E; [reflexivity|].
    apply Z.ltb_ge in E. lia. }
  rewrite Hclamp.
  set (pool := [e1; e2; e3]) in *.
  assert (Hfl : feature_list_of pool 3 = map fst (sorted mz_le pool))
    by (apply feature_list_of_all; cbn; lia).
  assert (Hperm : Permutation (map fst (sorted mz_le pool)) (map fst pool))
    by (apply Permutation_map, sorted_perm).
  assert (Hnd' : NoDup (feature_list_of pool 3)).
  { rewrite Hfl. apply (Permutation_NoDup (Permutation_sym Hperm)), Hnd. }
  rewrite build_network_without_edges;
    [ | unfold max_num_nodes; lia | | exact Hnd' ].
  - change (Z.to_nat (3 - num_connected_of 3)) with 1%nat.
    rewrite Hfl.
    pose proof (sorted_ordered mz_le mz_le_total mz_le_trans pool) as Hs.
    pose proof (sorted_perm mz_le pool) as Hp.
    pose proof (sorted_length mz_le pool) as Hl.
    destruct (sorted mz_le pool) as [|[fid feat] tl]; [discriminate|].
    cbn. split; [reflexivity|]. split; [reflexivity|].
    exists fid, feat. split; [reflexivity|]. split.
    + apply (Permutation_in _ Hp). left. reflexivity.
    + intros fid' feat' Hin.
      apply (Permutation_in _ (Permutation_sym Hp)) in Hin.
      destruct Hin as [Heq|Hin]; [injection Heq as <- <-; lra|].
      inversion Hs as [|? ? _ Hall']; subst.
      rewrite Forall_forall in Hall'.
      apply Rleb_true. apply (Hall' _ Hin).
  - apply add_edges_none; [exact Hnd'|].
    intros a b Ha Hb Hab. apply Rleb_false. apply Hsim; auto.
    + apply (Permutation_in _ Hperm). rewrite <- Hfl. exact Ha.
    + apply (Permutation_in _ Hperm). rewrite <- Hfl. exact Hb.
Qed.

(** C2, as the code has it.  For a table of exactly three features, each
    with a fragment spectrum and an m/z not above [max_mz], whose pairwise
    similarities are all 0, a requested node count of at least 3 and the
    threshold 0.7, the returned network has exactly one node and no edge:
    the quota of singletons for [N = 3] is [3 - int(3 * 0.7) = 1], and the
    node is a feature of smallest m/z. *)
Theorem three_dissimilar_features_yield_one_node :
  forall (features : dict feature) (ms2_spectra : dict spectrum)
         (num_nodes : Z) (max_mz : R),
    length features = 3%nat ->
    NoDup (map fst features) ->
    (forall fid feat, In (fid, feat) features ->
                      dict_mem fid ms2_spectra = true /\ mz feat <= max_mz) ->
    (forall a b, In a (map fst features) -> In b (map fst features) ->
                 a <> b ->
                 cosine_similarity_ms2 (spectrum_of ms2_spectra a)
                                       (spectrum_of ms2_spectra b)
                                       default_mz_tolerance = 0) ->
    (3 <= num_nodes)%Z ->
    let G := fst (create_network features ms2_spectra num_nodes
                                 default_similarity_threshold max_mz) in
    number_of_nodes G = 1%nat /\
    number_of_edges G = 0%nat /\
    exists fid feat,
      nodes G = [fid] /\ In (fid, feat) features /\
      forall fid' feat', In (fid', feat') features -> mz feat <= mz feat'.
Proof.
  intros features ms2 num_nodes max_mz Hlen Hnd Hok Hsim HN.
  apply three_isolated_features; auto.
  intros a b Ha Hb Hab. unfold similarity.
  rewrite (Hsim a b Ha Hb Hab). unfold default_similarity_threshold. lra.
Qed.

End NetworkFacts.

(* ================================================================== *)
(** * The example inputs, worked out *)
(* ================================================================== *)

Section Examples.

(** Decide a comparison of two known reals. *)
Ltac R_case :=
  unfold Rltb, Rleb, Reqb;
  match goal with
  | |- context [Rlt_dec ?a ?b] =>
      destruct (Rlt_dec a b); [try (exfalso; lra) | try (exfalso; lra)]
  | |- context [Rle_dec ?a ?b] =>
      destruct (Rle_dec a b); [try (exfalso; lra) | try (exfalso; lra)]
  | |- context [Req_dec_T ?a ?b] =>
      destruct (Req_dec_T a b); [try (exfalso; lra) | try (exfalso; lra)]
  end.

Lemma Rabs_lt_iff x t : Rabs x < t <-> - t < x < t.
Proof.
  unfold Rabs. destruct (Rcase_abs x); lra.
Qed.

Lemma Rabs_le_iff x t : Rabs x <= t <-> - t <= x <= t.
Proof.
  unfold Rabs. destruct (Rcase_abs x); lra.
Qed.

(** Two one-peak spectra further apart than the tolerance score 0. *)
Lemma cosine_one_peak_apart m1 i1 m2 i2 tol :
  ~ Rabs (m1 - m2) <= tol ->
  cosine_similarity_ms2 [(m1, i1)] [(m2, i2)] tol = 0.
Proof.
  intros Hfar. unfold cosine_similarity_ms2. apply returned_value_zero_dot.
  unfold cosine_path. cbn [is_empty orb]. cbv zeta. rewrite align_cons.
  destruct (Rle_dec (Rabs (m1 - m2)) tol); [contradiction|].
  destruct (Rlt_dec m1 m2);
    (destruct (Req_dec_T _ 0); [exact I|]);
    (destruct (Req_dec_T _ 0); [exact I|]);
    cbn; ring.
Qed.

(** Two one-peak spectra with the same m/z and positive intensities
    score 1. *)
Lemma cosine_one_peak_same m i1 i2 tol :
  0 <= tol -> 0 < i1 -> 0 < i2 ->
  cosine_similarity_ms2 [(m, i1)] [(m, i2)] tol = 1.
Proof.
  intros Htol H1 H2. unfold cosine_similarity_ms2, cosine_path.
  cbn [is_empty orb]. cbv zeta. rewrite align_cons.
  destruct (Rle_dec (Rabs (m - m)) tol) as [_|Hn].
  2: { exfalso. apply Hn. rewrite Rminus_diag, Rabs_R0. exact Htol. }
  cbn [align remaining2 emit map fst snd intensities dot].
  unfold norm. cbn [dot].
  replace (i1 * i1 + 0) with (Rsqr i1) by (unfold Rsqr; ring).
  replace (i2 * i2 + 0) with (Rsqr i2) by (unfold Rsqr; ring).
  rewrite !sqrt_Rsqr by lra.
  destruct (Req_dec_T i1 0); [lra|].
  destruct (Req_dec_T i2 0); [lra|].
  cbn. field. lra.
Qed.

(** ** The three-feature table *)

Lemma three_features_distinct : NoDup (map fst three_features).
Proof.
  cbn. repeat constructor; cbn; intuition discriminate.
Qed.

Lemma three_features_usable fid feat :
  In (fid, feat) three_features ->
  dict_mem fid three_spectra = true /\ mz feat <= default_max_mz.
Proof.
  unfold default_max_mz.
  intros [H|[H|[H|[]]]]; injection H as <- <-;
    (split; [reflexivity | cbn; lra]).
Qed.

Lemma three_features_dissimilar a b :
  In a (map fst three_features) -> In b (map fst three_features) ->
  a <> b ->
  cosine_similarity_ms2 (spectrum_of three_spectra a)
                        (spectrum_of three_spectra b)
                        default_mz_tolerance = 0.
Proof.
  unfold default_mz_tolerance.
  intros [<-|[<-|[<-|[]]]] [<-|[<-|[<-|[]]]] Hab;
    try (exfalso; apply Hab; reflexivity);
    apply cosine_one_peak_apart; rewrite Rabs_le_iff; lra.
Qed.

Lemma three_dissimilar_features_witness :
  number_of_nodes
    (fst (create_network three_features three_spectra 50
                         default_similarity_threshold default_max_mz))
  = 1%nat.
Proof.
  apply (three_dissimilar_features_yield_one_node
           three_features three_spectra (num_nodes := 50)
           (max_mz := default_max_mz)
           eq_refl three_features_distinct
           three_features_usable three_features_dissimilar).
  lia.
Defined.

(** The scenario as the specification states it fails on this table: the
    network does not have 3 nodes. *)
Lemma three_features_network_is_not_three_nodes :
  length three_features = 3%nat /\
  (forall fid feat, In (fid, feat) three_features ->
                    dict_mem fid three_spectra = true
                    /\ mz feat < default_max_mz) /\
  (forall a b, In a (map fst three_features) ->
               In b (map fst three_features) -> a <> b ->
               cosine_similarity_ms2 (spectrum_of three_spectra a)
                                     (spectrum_of three_spectra b)
                                     default_mz_tolerance = 0) /\
  ~ (number_of_nodes
       (fst (create_network three_features three_spectra 50
                            default_similarity_threshold default_max_mz))
     = 3%nat
     /\ number_of_edges
          (fst (create_network three_features three_spectra 50
                               default_similarity_threshold default_max_mz))
        = 0%nat).
Proof.
  split; [reflexivity|]. split; [|split].
  - unfold default_max_mz.
    intros fid feat [H|[H|[H|[]]]]; injection H as <- <-;
      (split; [reflexivity | cbn; lra]).
  - exact three_features_dissimilar.
  - intros [Hnodes _].
    assert (Hone : number_of_nodes
                     (fst (create_network three_features three_spectra 50
                             default_similarity_threshold default_max_mz))
                   = 1%nat).
    { apply (@three_isolated_features three_features three_spectra 50
               default_similarity_threshold default_max_mz eq_refl
               three_features_distinct three_features_usable);
        [|lia].
      intros a b Ha Hb Hab. unfold similarity.
      rewrite (three_features_dissimilar Ha Hb Hab).
      unfold default_similarity_threshold. lra. }
    rewrite Hone in Hnodes. discriminate.
Qed.

Lemma three_features_no_edges :
  add_edges three_spectra default_similarity_threshold
            (feature_list_of three_features 3) empty_graph
  = empty_graph.
Proof.
  assert (Hfl : feature_list_of three_features 3
                = map fst (sorted mz_le three_features))
    by (apply feature_list_of_all; cbn; lia).
  assert (Hperm : Permutation (map fst (sorted mz_le three_features))
                              (map fst three_features))
    by (apply Permutation_map, sorted_perm).
  rewrite Hfl. apply add_edges_none.
  - apply (Permutation_NoDup (Permutation_sym Hperm)), three_features_distinct.
  - intros a b Ha Hb Hab. apply Rleb_false. unfold similarity.
    rewrite three_features_dissimilar;
      [unfold default_similarity_threshold; lra | | | exact Hab];
      apply (Permutation_in _ Hperm); assumption.
Qed.

Lemma three_features_candidates :
  length (feature_list_of three_features 3) = 3%nat.
Proof.
  rewrite feature_list_of_all by (cbn; lia).
  rewrite length_map, sorted_length. reflexivity.
Qed.

(** C1 fails on the three-feature table with [N = 3]: no connected node is
    selected and there are three singleton candidates, so the allowance the
    specification describes, [N - 0 = 3], would select all three; the code
    selects one, and the network has one node, not [N]. *)
Lemma singleton_allowance_does_not_grow :
  let feature_list := feature_list_of three_features 3 in
  let G := add_edges three_spectra default_similarity_threshold feature_list
                     empty_graph in
  selected_connected_of G 3 = [] /\
  length (singleton_candidates G feature_list) = 3%nat /\
  length (spec_selected_singletons G feature_list 3) = 3%nat /\
  length (selected_singletons_of G feature_list 3) = 1%nat /\
  selected_singletons_of G feature_list 3
  <> spec_selected_singletons G feature_list 3 /\
  number_of_nodes (build_network three_features three_spectra 3
                                 default_similarity_threshold) = 1%nat.
Proof.
  cbv zeta. rewrite three_features_no_edges.
  pose proof three_features_candidates as Hlen.
  set (fl := feature_list_of three_features 3) in *.
  assert (Hcand : singleton_candidates empty_graph fl = fl)
    by (apply filter_all; intros x _; reflexivity).
  assert (Hsc : selected_connected_of empty_graph 3 = [])
    by apply py_slice_to_nil.
  assert (Hspec : spec_selected_singletons empty_graph fl 3 = fl).
  { unfold spec_selected_singletons, spec_num_singletons.
    rewrite Hcand, Hsc. apply py_slice_to_all. rewrite Hlen. cbn. lia. }
  assert (Hcode : length (selected_singletons_of empty_graph fl 3) = 1%nat).
  { unfold selected_singletons_of. rewrite Hcand.
    change (num_singletons_of 3) with 1%Z.
    rewrite py_slice_to_nonneg by lia. rewrite length_firstn, Hlen.
    reflexivity. }
  split; [exact Hsc|]. split; [|split; [|split; [|split]]].
  - rewrite Hcand. exact Hlen.
  - rewrite Hspec. exact Hlen.
  - exact Hcode.
  - intros Heq. rewrite Heq, Hspec, Hlen in Hcode. discriminate.
  - rewrite build_network_without_edges.
    + unfold number_of_nodes. cbn [nodes].
      change (Z.to_nat (3 - num_connected_of 3)) with 1%nat.
      fold fl. rewrite length_firstn, Hlen. reflexivity.
    + unfold max_num_nodes. lia.
    + exact three_features_no_edges.
    + fold fl. unfold fl. rewrite feature_list_of_all by (cbn; lia).
      apply (Permutation_NoDup
               (Permutation_sym
                  (Permutation_map fst (sorted_perm mz_le three_features)))).
      exact three_features_distinct.
Qed.

Lemma create_network_bounded_witness :
  (Z.of_nat (number_of_nodes
               (fst (create_network three_features three_spectra 50
                       default_similarity_threshold default_max_mz)))
   <= clamp_num_nodes
        (length (features_with_ms2 three_features three_spectra
                                   default_max_mz)) 50)%Z.
Proof.
  assert (H : (0 <= 50 <= max_num_nodes)%Z) by (unfold max_num_nodes; lia).
  exact (proj1 (create_network_bounded_and_closed three_features
                  three_spectra default_similarity_threshold
                  default_max_mz H)).
Defined.

(** ** The four-feature table *)

Lemma sorted_already (A : Type) (le : A -> A -> bool) l :
  Sorted (fun a b => le a b = true) l -> sorted le l = l.
Proof.
  induction 1 as [|x l Hs IH Hhd]; cbn; [reflexivity|].
  rewrite IH. destruct Hhd as [|y l' Hxy]; cbn; [reflexivity|].
  rewrite Hxy. reflexivity.
Qed.

Lemma four_features_candidates :
  feature_list_of four_features 4 = [f0; f1; f2; f3].
Proof.
  rewrite feature_list_of_all by (cbn; lia).
  rewrite sorted_already; [reflexivity|].
  unfold four_features, mz_le.
  repeat constructor; apply Rleb_true; cbn; lra.
Qed.

Lemma four_features_similarities :
  similarity four_spectra f0 f1 = 0 /\ similarity four_spectra f0 f2 = 0 /\
  similarity four_spectra f0 f3 = 1 /\ similarity four_spectra f1 f2 = 1 /\
  similarity four_spectra f1 f3 = 0 /\ similarity four_spectra f2 f3 = 0.
Proof.
  unfold similarity, default_mz_tolerance.
  change (spectrum_of four_spectra f0) with [(50, 10)].
  change (spectrum_of four_spectra f1) with [(60, 10)].
  change (spectrum_of four_spectra f2) with [(60, 10)].
  change (spectrum_of four_spectra f3) with [(50, 10)].
  repeat split;
    first [ apply cosine_one_peak_apart; rewrite Rabs_le_iff; lra
          | apply cosine_one_peak_same; lra ].
Qed.

(** The graph of line 370: the edge between the first and the last feature
    is added first, so the last feature enters the graph before the two in
    the middle. *)
Lemma four_features_graph :
  add_edges four_spectra default_similarity_threshold [f0; f1; f2; f3]
            empty_graph
  = Graph [f0; f3; f1; f2] [(f0, f3, 1); (f1, f2, 1)].
Proof.
  destruct four_features_similarities as (H01 & H02 & H03 & H12 & H13 & H23).
  assert (Hno : Rleb default_similarity_threshold 0 = false)
    by (apply Rleb_false; unfold default_similarity_threshold; lra).
  assert (Hyes : Rleb default_similarity_threshold 1 = true)
    by (apply Rleb_true; unfold default_similarity_threshold; lra).
  unfold add_edges, add_edges_from. cbn [fold_left].
  rewrite H01, H02, H03, H12, H13, H23, Hno, Hyes.
  reflexivity.
Qed.

Lemma four_features_pool :
  features_with_ms2 four_features four_spectra default_max_mz = four_features
  /\ features_with_ms2_all four_features four_spectra = four_features.
Proof.
  assert (Hall : features_with_ms2_all four_features four_spectra
                 = four_features)
    by (apply filter_all;
        intros e [<-|[<-|[<-|[<-|[]]]]]; reflexivity).
  split; [|exact Hall].
  unfold features_with_ms2. rewrite Hall. apply filter_all.
  unfold default_max_mz.
  intros e [<-|[<-|[<-|[<-|[]]]]]; apply Rleb_true; cbn; lra.
Qed.

(** C3 fails on the four-feature table: all four nodes have degree 1, the
    ranking the specification describes keeps them by ascending m/z, but
    the code ranks the feature of largest m/z second, and with [N = 4] it
    is selected while two features of smaller m/z and equal degree are
    not. *)
Lemma equal_degree_ranking_is_not_by_mz :
  let feature_list := feature_list_of four_features 4 in
  let G := add_edges four_spectra default_similarity_threshold feature_list
                     empty_graph in
  feature_list = [f0; f1; f2; f3] /\
  (degree G f1 = 1%nat /\ degree G f2 = 1%nat /\ degree G f3 = 1%nat) /\
  spec_connected_ranking G feature_list = [f0; f1; f2; f3] /\
  connected_nodes_sorted G = [f0; f3; f1; f2] /\
  connected_nodes_sorted G <> spec_connected_ranking G feature_list /\
  nodes (fst (create_network four_features four_spectra 4
                             default_similarity_threshold default_max_mz))
  = [f0; f3].
Proof.
  cbv zeta. rewrite four_features_candidates, four_features_graph.
  split; [reflexivity|]. split; [repeat split|].
  split; [reflexivity|]. split; [reflexivity|]. split; [discriminate|].
  unfold create_network.
  destruct four_features_pool as [-> ->].
  cbn [is_empty four_features length Nat.eqb fst].
  change (clamp_num_nodes 4 4) with 4%Z.
  unfold build_network.
  rewrite four_features_candidates, four_features_graph.
  reflexivity.
Qed.

(** ** The MS2 scan between two features *)

Lemma ms2_scan_filtered_peaks :
  filter_peaks (50, 10) [(60, 20)] = [(50, 10); (60, 20)].
Proof.
  unfold filter_peaks, max_intensity_of, py_max.
  cbn [fold_left map snd filter].
  repeat R_case; reflexivity.
Qed.

Lemma ms2_scan_closest :
  spec_closest_feature (st_features two_feature_state) (100 + 3 / 64)
                       1 f1 (Feature (100 + 1 / 16) 2 1000 "run" false).
Proof.
  unfold spec_closest_feature, precursor_diff, feature_mz_tolerance.
  split; [reflexivity|]. split; [reflexivity|]. cbn [mz].
  split; [apply Rabs_lt_iff; lra|].
  assert (H1 : Rabs (100 + 1 / 16 - (100 + 3 / 64)) = 1 / 64)
    by (rewrite Rabs_right; lra).
  assert (H0 : Rabs (100 - (100 + 3 / 64)) = 3 / 64)
    by (rewrite Rabs_left; lra).
  split.
  - intros [|[|j]] fid' feat' Hj Hnb; cbn in Hj.
    + injection Hj as <- <-. cbn [mz]. rewrite H0, H1. lra.
    + injection Hj as <- <-. cbn [mz]. lra.
    + destruct j; discriminate.
  - intros [|j] fid' feat' Hj Hnb Hlt; [|lia].
    cbn in Hj. injection Hj as <- <-. cbn [mz]. rewrite H0, H1. lra.
Qed.

End Examples.

(* ================================================================== *)
(** * Properties of [escape_xml] *)
(* ================================================================== *)

Section EscapeFacts.

Local Open Scope string_scope.

Lemma string_app_assoc (a b c : string) : (a ++ b) ++ c = a ++ (b ++ c).
Proof. induction a as [|x a IH]; cbn; [reflexivity | now rewrite IH]. Qed.

Lemma replace_char_app old new a b :
  replace_char old new (a ++ b)
  = replace_char old new a ++ replace_char old new b.
Proof.
  induction a as [|x a IH]; cbn; [reflexivity|].
  rewrite IH. destruct (Ascii.eqb x old); cbn; [|reflexivity].
  now rewrite string_app_assoc.
Qed.

Lemma escape_xml_text_cons c rest :
  escape_xml_text (String c rest) = escape_char c ++ escape_xml_text rest.
Proof.
  unfold escape_xml_text, escape_char. cbn [replace_char].
  destruct (Ascii.eqb c "&") eqn:E1.
  { rewrite !replace_char_app. reflexivity. }
  cbn [replace_char]. destruct (Ascii.eqb c "<") eqn:E2.
  { rewrite !replace_char_app. reflexivity. }
  cbn [replace_char]. destruct (Ascii.eqb c ">") eqn:E3.
  { rewrite !replace_char_app. reflexivity. }
  cbn [replace_char]. destruct (Ascii.eqb c double_quote) eqn:E4.
  { rewrite !replace_char_app. reflexivity. }
  cbn [replace_char]. destruct (Ascii.eqb c "'") eqn:E5.
  { reflexivity. }
  reflexivity.
Qed.

Lemma escape_xml_text_each text : escape_xml_text text = escape_each text.
Proof.
  induction text as [|c rest IH]; [reflexivity|].
  rewrite escape_xml_text_cons, IH. reflexivity.
Qed.

(** X1. [escape_xml] escapes in one pass: although it runs five successive
    [replace] calls, its result on a string is the concatenation of the
    escapes of the string's characters, so the [&] of an entity it has
    introduced is never escaped again; on [None] it returns the empty
    string. *)
Theorem escape_xml_is_one_pass :
  escape_xml None = EmptyString /\
  forall text, escape_xml (Some text) = escape_each text.
Proof. split; [reflexivity | exact escape_xml_text_each]. Qed.

Lemma list_ascii_app a b :
  list_ascii_of_string (a ++ b)
  = (list_ascii_of_string a ++ list_ascii_of_string b)%list.
Proof. induction a as [|x a IH]; cbn; [reflexivity | now rewrite IH]. Qed.

(** The six shapes of [escape_char c]. *)
Lemma escape_char_cases c :
  (c = "&"%char /\ escape_char c = "&amp;") \/
  (c = "<"%char /\ escape_char c = "&lt;") \/
  (c = ">"%char /\ escape_char c = "&gt;") \/
  (c = double_quote /\ escape_char c = "&quot;") \/
  (c = "'"%char /\ escape_char c = "&apos;") \/
  (~ In c xml_special /\ escape_char c = String c EmptyString).
Proof.
  unfold escape_char.
  destruct (Ascii.eqb_spec c "&"); [subst; auto|].
  destruct (Ascii.eqb_spec c "<"); [subst; auto|].
  destruct (Ascii.eqb_spec c ">"); [subst; auto 6|].
  destruct (Ascii.eqb_spec c double_quote); [subst; auto 6|].
  destruct (Ascii.eqb_spec c "'"); [subst; auto 7|].
  do 5 right. split; [|reflexivity].
  cbn. intros [H|[H|[H|[H|[H|[]]]]]]; congruence.
Qed.

Lemma escape_char_clean c d :
  In d (list_ascii_of_string (escape_char c)) -> ~ In d xml_delimiters.
Proof.
  destruct (escape_char_cases c)
    as [[-> ->]|[[-> ->]|[[-> ->]|[[-> ->]|[[-> ->]|[Hc ->]]]]]];
    cbn; intros Hd Hx;
    try (repeat (destruct Hd as [<-|Hd]; [
           repeat (destruct Hx as [Hx|Hx]; [discriminate Hx|]); exact Hx|]);
         exact Hd).
  destruct Hd as [<-|[]]. apply Hc. cbn. tauto.
Qed.

(** X2. The output of [escape_xml] contains none of the characters [<],
    [>], the double quote and the apostrophe, whatever the input: placed
    between the quotes of an attribute value it cannot end the value or open
    a tag. *)
Theorem escape_xml_output_has_no_delimiter text c :
  In c (list_ascii_of_string (escape_xml text)) -> ~ In c xml_delimiters.
Proof.
  destruct text as [text|]; [|intros []].
  cbn [escape_xml]. rewrite escape_xml_text_each.
  induction text as [|x rest IH]; [intros []|].
  cbn [escape_each]. rewrite list_ascii_app. intros H.
  apply in_app_or in H. destruct H as [H|H]; [|auto].
  exact (escape_char_clean x H).
Qed.

Lemma escape_xml_output_has_no_delimiter_witness :
  In "l"%char (list_ascii_of_string (escape_xml (Some "<")))
  /\ ~ In "l"%char xml_delimiters.
Proof.
  assert (H : In "l"%char (list_ascii_of_string (escape_xml (Some "<")))).
  { cbn. tauto. }
  split; [exact H|].
  exact (@escape_xml_output_has_no_delimiter (Some "<") "l"%char H).
Defined.

(** X3. A string with none of the five special characters is returned
    unchanged by [escape_xml]. *)
Theorem escape_xml_plain_text_unchanged text :
  (forall c, In c (list_ascii_of_string text) -> ~ In c xml_special) ->
  escape_xml (Some text) = text.
Proof.
  cbn [escape_xml]. rewrite escape_xml_text_each.
  induction text as [|x rest IH]; [reflexivity|].
  intros H. cbn [escape_each].
  rewrite IH by (intros c Hc; apply H; cbn; auto).
  destruct (escape_char_cases x)
    as [[-> _]|[[-> _]|[[-> _]|[[-> _]|[[-> _]|[_ ->]]]]]];
    try reflexivity;
    exfalso; eapply H; cbn; try (left; reflexivity); cbn; tauto.
Qed.

Lemma escape_xml_plain_text_unchanged_witness :
  escape_xml (Some "feature_run_0001") = "feature_run_0001".
Proof.
  apply escape_xml_plain_text_unchanged.
  cbn. intros c H.
  repeat (destruct H as [<-|H];
          [intros Hx; repeat (destruct Hx as [Hx|Hx]; [discriminate Hx|]);
           exact Hx|]).
  destruct H.
Defined.

Lemma escape_each_injective a b : escape_each a = escape_each b -> a = b.
Proof.
  revert b. induction a as [|x a IH]; intros [|y b]; cbn [escape_each].
  - reflexivity.
  - destruct (escape_char_cases y)
      as [[_ ->]|[[_ ->]|[[_ ->]|[[_ ->]|[[_ ->]|[_ ->]]]]]]; discriminate.
  - destruct (escape_char_cases x)
      as [[_ ->]|[[_ ->]|[[_ ->]|[[_ ->]|[[_ ->]|[_ ->]]]]]]; discriminate.
  - destruct (escape_char_cases x)
      as [[-> ->]|[[-> ->]|[[-> ->]|[[-> ->]|[[-> ->]|[Hx ->]]]]]];
    destruct (escape_char_cases y)
      as [[-> ->]|[[-> ->]|[[-> ->]|[[-> ->]|[[-> ->]|[Hy ->]]]]]];
    cbn; intros H;
    try discriminate H;
    try (injection H as H; f_equal; apply IH; exact H);
    try (injection H as H1 H2; subst; exfalso;
         first [apply Hx | apply Hy]; cbn; tauto).
    injection H as -> H. f_equal. apply IH; exact H.
Qed.

(** X4. [escape_xml] is injective on strings: two different strings never
    have the same escaped form. *)
Theorem escape_xml_injective a b :
  escape_xml (Some a) = escape_xml (Some b) -> a = b.
Proof.
  cbn [escape_xml]. rewrite !escape_xml_text_each.
  apply escape_each_injective.
Qed.

Lemma escape_xml_injective_witness :
  escape_xml (Some "a<b") = escape_xml (Some "a<b") /\ "a<b" = "a<b".
Proof.
  split; [reflexivity|].
  exact (@escape_xml_injective "a<b" "a<b" eq_refl).
Defined.

End EscapeFacts.

(* ================================================================== *)
(** * Further properties of [create_network] *)
(* ================================================================== *)

Section NetworkNodeFacts.

Lemma add_edges_from_nodes_incl ms2 thr fid1 later g x :
  In x (nodes (add_edges_from ms2 thr fid1 later g)) ->
  In x (nodes g) \/ x = fid1 \/ In x later.
Proof.
  unfold add_edges_from. revert g.
  induction later as [|fid2 later IH]; intros g H; cbn in H; [auto|].
  apply IH in H. destruct H as [H|[H|H]]; [|auto|cbn; auto].
  destruct (Rleb thr (similarity ms2 fid1 fid2)); [|auto].
  apply add_edge_nodes in H. cbn. intuition.
Qed.

Lemma add_edges_nodes_incl ms2 thr feature_list g x :
  In x (nodes (add_edges ms2 thr feature_list g)) ->
  In x (nodes g) \/ In x feature_list.
Proof.
  revert g. induction feature_list as [|fid1 later IH]; intros g H;
    cbn in H; [auto|].
  apply IH in H. destruct H as [H|H]; [|cbn; auto].
  apply add_edges_from_nodes_incl in H. cbn. intuition.
Qed.

Lemma feature_list_of_incl pool N x :
  In x (feature_list_of pool N) -> exists feat, In (x, feat) pool.
Proof.
  unfold feature_list_of. intros H. apply in_map_iff in H.
  destruct H as ([fid feat] & <- & H). exists feat.
  apply py_slice_to_incl in H. apply sorted_In in H. exact H.
Qed.

Lemma build_network_nodes_incl pool ms2 N thr x :
  In x (nodes (build_network pool ms2 N thr)) ->
  In x (feature_list_of pool N).
Proof.
  unfold build_network. intros H. apply subgraph_nodes in H.
  destruct H as [H _]. apply add_singletons_nodes in H.
  destruct H as [H|H].
  - apply add_edges_nodes_incl in H. destruct H as [[]|H]. exact H.
  - unfold selected_singletons_of in H. apply py_slice_to_incl in H.
    unfold singleton_candidates in H. apply filter_In in H. tauto.
Qed.

Lemma create_network_result features ms2 N thr max_mz :
  create_network features ms2 N thr max_mz = (empty_graph, [])
  \/ (features_with_ms2 features ms2 max_mz <> [] /\
      create_network features ms2 N thr max_mz
      = (build_network (features_with_ms2 features ms2 max_mz) ms2
           (clamp_num_nodes
              (length (features_with_ms2 features ms2 max_mz)) N) thr,
         features_with_ms2 features ms2 max_mz)).
Proof.
  unfold create_network.
  destruct (is_empty (features_with_ms2_all features ms2)); [auto|].
  destruct (features_with_ms2 features ms2 max_mz) as [|e pool] eqn:E;
    [auto|].
  right. split; [discriminate | reflexivity].
Qed.

Lemma features_with_ms2_In features ms2 max_mz fid feat :
  In (fid, feat) (features_with_ms2 features ms2 max_mz)
  <-> In (fid, feat) features /\ dict_mem fid ms2 = true
      /\ mz feat <= max_mz.
Proof.
  unfold features_with_ms2, features_with_ms2_all.
  rewrite !filter_In. cbn [fst snd]. rewrite Rleb_true. tauto.
Qed.

Lemma create_network_node_candidate features ms2 N thr max_mz x :
  In x (nodes (fst (create_network features ms2 N thr max_mz))) ->
  exists feat,
    In (x, feat) (snd (create_network features ms2 N thr max_mz)) /\
    In (x, feat) features /\ dict_mem x ms2 = true /\ mz feat <= max_mz.
Proof.
  destruct (create_network_result features ms2 N thr max_mz)
    as [-> | [_ ->]]; cbn [fst snd]; [intros []|].
  intros H. apply build_network_nodes_incl in H.
  apply feature_list_of_incl in H.
  destruct H as [feat H]. exists feat. split; [exact H|].
  apply features_with_ms2_In in H. exact H.
Qed.

(** X5. Every node of the network returned by [create_network] is a
    candidate: it has an entry in the returned feature table, which is an
    entry of the input table, it has a fragment spectrum, and its m/z does
    not exceed [max_mz]. *)
Theorem create_network_nodes_are_candidates :
  forall (features : dict feature) (ms2_spectra : dict spectrum)
         (num_nodes : Z) (similarity_threshold max_mz : R),
    let created := create_network features ms2_spectra num_nodes
                                  similarity_threshold max_mz in
    Forall (fun node_id =>
              exists feat,
                In (node_id, feat) (snd created) /\
                In (node_id, feat) features /\
                dict_mem node_id ms2_spectra = true /\
                mz feat <= max_mz)
           (nodes (fst created)).
Proof.
  intros features ms2 N thr max_mz created. subst created.
  apply Forall_forall. intros x H.
  apply create_network_node_candidate. exact H.
Qed.

End NetworkNodeFacts.

Section NetworkEdgeFacts.

Lemma similarity_sym ms2 a b : similarity ms2 a b = similarity ms2 b a.
Proof. unfold similarity. apply cosine_symmetric. Qed.

Lemma same_edge_true u v e :
  same_edge u v e = true
  <-> fst e = (u, v) \/ fst e = (v, u).
Proof.
  destruct e as [[a b] w]. unfold same_edge. cbn [fst snd].
  rewrite orb_true_iff, !andb_true_iff, !fid_eqb_true.
  split.
  - intros [[-> ->]|[-> ->]]; auto.
  - intros [H|H]; injection H as -> ->; auto.
Qed.

Lemma add_edge_edges_sound ms2 thr u v g :
  edges_sound ms2 thr g -> thr <= similarity ms2 u v ->
  edges_sound ms2 thr (add_edge u v (similarity ms2 u v) g).
Proof.
  intros Hg Hthr a b w. unfold add_edge. rewrite !add_node_edges.
  destruct (existsb (same_edge u v) (edges g)); cbn [edges].
  - intros H. apply in_map_iff in H. destruct H as (e & He & Hin).
    destruct (same_edge u v e) eqn:Hs.
    + apply same_edge_true in Hs. destruct e as [p w0]. cbn [fst] in *.
      injection He as -> <-.
      destruct Hs as [Hs|Hs]; injection Hs as -> ->; split; auto.
      apply similarity_sym.
    + subst e. apply (Hg _ _ _ Hin).
  - intros H. apply in_app_or in H. destruct H as [H|[H|[]]].
    + apply (Hg _ _ _ H).
    + injection H as <- <- <-. auto.
Qed.

Lemma add_edges_from_edges_sound ms2 thr fid1 later g :
  edges_sound ms2 thr g ->
  edges_sound ms2 thr (add_edges_from ms2 thr fid1 later g).
Proof.
  unfold add_edges_from. apply fold_left_invariant.
  intros g' fid2 Hg'.
  destruct (Rleb thr (similarity ms2 fid1 fid2)) eqn:E; [|exact Hg'].
  apply add_edge_edges_sound; [exact Hg'|]. apply Rleb_true. exact E.
Qed.

Lemma add_edges_edges_sound ms2 thr feature_list g :
  edges_sound ms2 thr g ->
  edges_sound ms2 thr (add_edges ms2 thr feature_list g).
Proof.
  revert g. induction feature_list as [|fid1 later IH]; intros g Hg;
    cbn; [exact Hg|].
  apply IH. apply add_edges_from_edges_sound. exact Hg.
Qed.

Lemma build_network_edges_sound pool ms2 N thr :
  edges_sound ms2 thr (build_network pool ms2 N thr).
Proof.
  unfold build_network. intros u v w H.
  apply subgraph_edges in H. destruct H as [H _].
  rewrite add_singletons_edges in H. revert u v w H.
  apply add_edges_edges_sound. intros u v w [].
Qed.

(** X6. Every edge of the network returned by [create_network] is
    justified: its weight is the cosine similarity, at the default m/z
    tolerance, of the fragment spectra of its two endpoints, and that
    similarity is at least [similarity_threshold]. *)
Theorem create_network_edges_reach_threshold :
  forall (features : dict feature) (ms2_spectra : dict spectrum)
         (num_nodes : Z) (similarity_threshold max_mz : R),
    Forall (fun e =>
              snd e = cosine_similarity_ms2
                        (spectrum_of ms2_spectra (fst (fst e)))
                        (spectrum_of ms2_spectra (snd (fst e)))
                        default_mz_tolerance
              /\ similarity_threshold <= snd e)
           (edges (fst (create_network features ms2_spectra num_nodes
                                       similarity_threshold max_mz))).
Proof.
  intros features ms2 N thr max_mz.
  destruct (create_network_result features ms2 N thr max_mz)
    as [-> | [_ ->]]; cbn [fst snd]; [constructor|].
  apply Forall_forall. intros [[u v] w] H. cbn [fst snd].
  exact (build_network_edges_sound _ _ _ _ _ _ _ H).
Qed.

Lemma has_edge_sym g a b : has_edge g a b = has_edge g b a.
Proof.
  unfold has_edge. induction (edges g) as [|e l IH]; cbn; [reflexivity|].
  rewrite IH. f_equal. unfold same_edge. apply orb_comm.
Qed.

Lemma has_edge_true g a b :
  has_edge g a b = true
  <-> exists w, In (a, b, w) (edges g) \/ In (b, a, w) (edges g).
Proof.
  unfold has_edge. rewrite existsb_exists. split.
  - intros ([p w] & Hin & Hs). apply same_edge_true in Hs. cbn [fst] in Hs.
    exists w. destruct Hs as [-> | ->]; auto.
  - intros (w & [H|H]); eexists; (split; [exact H|]);
      apply same_edge_true; cbn; auto.
Qed.

Lemma add_edge_has_edge u v w g a b :
  has_edge (add_edge u v w g) a b = true
  <-> has_edge g a b = true \/ (a, b) = (u, v) \/ (a, b) = (v, u).
Proof.
  unfold has_edge at 1 2, add_edge. rewrite !add_node_edges.
  destruct (existsb (same_edge u v) (edges g)) eqn:E; cbn [edges].
  - rewrite existsb_exists.
    assert (Hsame : forall e,
               same_edge a b (if same_edge u v e then (fst e, w) else e)
               = same_edge a b e).
    { intros e. destruct (same_edge u v e); reflexivity. }
    split.
    + intros (e' & Hin & Hs). apply in_map_iff in Hin.
      destruct Hin as (e & <- & Hin). rewrite Hsame in Hs.
      left. apply existsb_exists. eauto.
    + intros [H|H].
      * apply existsb_exists in H. destruct H as (e & Hin & Hs).
        eexists. split; [apply in_map; exact Hin|]. rewrite Hsame. exact Hs.
      * apply existsb_exists in E. destruct E as (e & Hin & Hs).
        eexists. split; [apply in_map; exact Hin|]. rewrite Hsame.
        apply same_edge_true in Hs. apply same_edge_true.
        destruct H as [H|H]; injection H as -> ->; tauto.
  - rewrite existsb_app, orb_true_iff. cbn [existsb]. rewrite orb_false_r.
    rewrite same_edge_true. cbn [fst].
    split; (intros [H|H]; [left; exact H|right]).
    + destruct H as [H|H]; injection H as -> ->; auto.
    + destruct H as [H|H]; injection H as -> ->; auto.
Qed.

Lemma add_edges_from_keeps_edge ms2 thr fid1 later g a b :
  has_edge g a b = true ->
  has_edge (add_edges_from ms2 thr fid1 later g) a b = true.
Proof.
  unfold add_edges_from.
  apply (fold_left_invariant
           (fun g fid2 =>
              if Rleb thr (similarity ms2 fid1 fid2)
              then add_edge fid1 fid2 (similarity ms2 fid1 fid2) g else g)
           (fun g => has_edge g a b = true)).
  intros g' fid2 Hg'.
  destruct (Rleb thr (similarity ms2 fid1 fid2)); [|exact Hg'].
  apply add_edge_has_edge. auto.
Qed.

Lemma add_edges_from_adds_edge ms2 thr fid1 later g fid2 :
  In fid2 later -> thr <= similarity ms2 fid1 fid2 ->
  has_edge (add_edges_from ms2 thr fid1 later g) fid1 fid2 = true.
Proof.
  intros Hin Hthr. revert g.
  induction later as [|x later IH]; intros g; [destruct Hin|].
  destruct Hin as [->|Hin].
  - change (add_edges_from ms2 thr fid1 (fid2 :: later) g)
      with (add_edges_from ms2 thr fid1 later
              (if Rleb thr (similarity ms2 fid1 fid2)
               then add_edge fid1 fid2 (similarity ms2 fid1 fid2) g else g)).
    apply add_edges_from_keeps_edge.
    apply Rleb_true in Hthr. rewrite Hthr.
    apply add_edge_has_edge. auto.
  - apply (IH Hin).
Qed.

Lemma add_edges_keeps_edge ms2 thr feature_list g a b :
  has_edge g a b = true ->
  has_edge (add_edges ms2 thr feature_list g) a b = true.
Proof.
  revert g. induction feature_list as [|fid1 later IH]; intros g Hg;
    cbn; [exact Hg|].
  apply IH. apply add_edges_from_keeps_edge. exact Hg.
Qed.

Lemma add_edges_adds_edge ms2 thr feature_list g a b :
  In a feature_list -> In b feature_list -> a <> b ->
  thr <= similarity ms2 a b ->
  has_edge (add_edges ms2 thr feature_list g) a b = true.
Proof.
  intros Ha Hb Hab Hthr. revert g.
  induction feature_list as [|fid1 later IH]; intros g; [destruct Ha|].
  cbn [add_edges].
  destruct Ha as [->|Ha], Hb as [->|Hb].
  - congruence.
  - apply add_edges_keeps_edge. apply add_edges_from_adds_edge; assumption.
  - apply add_edges_keeps_edge. rewrite has_edge_sym.
    apply add_edges_from_adds_edge; [assumption|].
    rewrite similarity_sym. exact Hthr.
  - apply (IH Ha Hb).
Qed.

Lemma subgraph_has_edge g selected a b :
  has_edge g a b = true -> In a selected -> In b selected ->
  has_edge (subgraph g selected) a b = true.
Proof.
  rewrite !has_edge_true. intros (w & H) Ha Hb. exists w.
  destruct H as [H|H]; [left|right]; apply subgraph_edges; auto.
Qed.

Lemma build_network_has_edge pool ms2 N thr a b :
  In a (nodes (build_network pool ms2 N thr)) ->
  In b (nodes (build_network pool ms2 N thr)) ->
  a <> b -> thr <= similarity ms2 a b ->
  has_edge (build_network pool ms2 N thr) a b = true.
Proof.
  intros Ha Hb Hab Hthr.
  pose proof (build_network_nodes_incl _ _ _ _ _ Ha) as Hla.
  pose proof (build_network_nodes_incl _ _ _ _ _ Hb) as Hlb.
  unfold build_network in *.
  apply subgraph_nodes in Ha. apply subgraph_nodes in Hb.
  apply subgraph_has_edge; [|tauto|tauto].
  unfold has_edge. rewrite add_singletons_edges.
  apply add_edges_adds_edge; assumption.
Qed.

(** X7. The network returned by [create_network] omits no edge between the
    nodes it keeps: two different nodes of the network whose fragment
    spectra have a cosine similarity of at least [similarity_threshold] are
    joined by an edge. *)
Theorem create_network_keeps_edges_between_nodes :
  forall (features : dict feature) (ms2_spectra : dict spectrum)
         (num_nodes : Z) (similarity_threshold max_mz : R)
         (u v : feature_id),
    let G := fst (create_network features ms2_spectra num_nodes
                                 similarity_threshold max_mz) in
    In u (nodes G) -> In v (nodes G) -> u <> v ->
    similarity_threshold
    <= cosine_similarity_ms2 (spectrum_of ms2_spectra u)
                             (spectrum_of ms2_spectra v)
                             default_mz_tolerance ->
    has_edge G u v = true.
Proof.
  intros features ms2 N thr max_mz u v G. subst G.
  destruct (create_network_result features ms2 N thr max_mz)
    as [-> | [_ ->]]; cbn [fst snd]; [intros []|].
  apply build_network_has_edge.
Qed.

Lemma four_features_network :
  fst (create_network four_features four_spectra 4
                      default_similarity_threshold default_max_mz)
  = Graph [f0; f3] [(f0, f3, 1)].
Proof.
  unfold create_network.
  destruct four_features_pool as [-> ->].
  cbn [is_empty four_features length Nat.eqb fst].
  change (clamp_num_nodes 4 4) with 4%Z.
  unfold build_network.
  rewrite four_features_candidates, four_features_graph.
  reflexivity.
Qed.

Lemma create_network_keeps_edges_witness :
  has_edge (fst (create_network four_features four_spectra 4
                                default_similarity_threshold default_max_mz))
           f3 f0 = true.
Proof.
  apply create_network_keeps_edges_between_nodes.
  - rewrite four_features_network. cbn. auto.
  - rewrite four_features_network. cbn. auto.
  - discriminate.
  - fold (similarity four_spectra f3 f0). rewrite similarity_sym.
    destruct four_features_similarities as (_ & _ & -> & _).
    unfold default_similarity_threshold. lra.
Defined.

End NetworkEdgeFacts.

Section NetworkSizeFacts.

Lemma validate_num_nodes_range requested :
  (10 <= validate_num_nodes requested <= 100)%Z.
Proof.
  unfold validate_num_nodes.
  destruct (requested <? 10)%Z eqn:E1, (100 <? requested)%Z eqn:E2;
    cbn [orb]; lia.
Qed.

Lemma validate_num_nodes_id requested :
  (10 <= requested <= 100)%Z -> validate_num_nodes requested = requested.
Proof.
  intros H. unfold validate_num_nodes.
  destruct (requested <? 10)%Z eqn:E1, (100 <? requested)%Z eqn:E2;
    cbn [orb]; lia.
Qed.

Lemma clamp_num_nodes_le_pool pool_size N :
  (clamp_num_nodes pool_size N <= Z.of_nat pool_size)%Z.
Proof. unfold clamp_num_nodes. destruct (Z.ltb_spec (Z.of_nat pool_size) N); lia. Qed.

Lemma clamp_num_nodes_le pool_size N :
  (clamp_num_nodes pool_size N <= N)%Z.
Proof. unfold clamp_num_nodes. destruct (Z.ltb_spec (Z.of_nat pool_size) N); lia. Qed.

(** X8. Whatever integer is requested with [--num-nodes], [main] passes a
    node count in [[10, 100]] to [create_network] (the request itself when
    it lies in that range), and the network it gets back has at most that
    many nodes and at most as many nodes as there are candidate features. *)
Theorem validated_request_bounds_network :
  forall (features : dict feature) (ms2_spectra : dict spectrum)
         (requested : Z) (similarity_threshold max_mz : R),
    let N := validate_num_nodes requested in
    let G := fst (create_network features ms2_spectra N
                                 similarity_threshold max_mz) in
    (10 <= N <= 100)%Z /\
    ((10 <= requested <= 100)%Z -> N = requested) /\
    (Z.of_nat (number_of_nodes G) <= N)%Z /\
    (number_of_nodes G
     <= length (features_with_ms2 features ms2_spectra max_mz))%nat.
Proof.
  intros features ms2 requested thr max_mz N G.
  pose proof (validate_num_nodes_range requested) as HN. fold N in HN.
  split; [exact HN|]. split; [apply validate_num_nodes_id|].
  subst G.
  destruct (create_network_result features ms2 N thr max_mz)
    as [-> | [_ ->]]; cbn [fst snd empty_graph number_of_nodes nodes length];
    [lia|].
  set (pool := features_with_ms2 features ms2 max_mz).
  assert (Hc : (0 <= clamp_num_nodes (length pool) N <= max_num_nodes)%Z).
  { apply clamp_num_nodes_range. unfold max_num_nodes. lia. }
  pose proof (build_network_size pool ms2 thr Hc) as Hsize.
  pose proof (clamp_num_nodes_le_pool (length pool) N).
  pose proof (clamp_num_nodes_le (length pool) N).
  unfold number_of_nodes in *. lia.
Qed.

Lemma allowance_positive N :
  (1 <= N <= max_num_nodes)%Z -> (1 <= N - num_connected_of N)%Z.
Proof.
  intros H. rewrite num_connected_floor by lia.
  unfold max_num_nodes in H.
  destruct (Z.eqb_spec N 90); [lia|].
  pose proof (Z.div_mod (7 * N) 10 ltac:(lia)).
  pose proof (Z.mod_pos_bound (7 * N) 10 ltac:(lia)). lia.
Qed.

Lemma quota_positive N :
  (2 <= N <= max_num_nodes)%Z -> (1 <= num_connected_of N)%Z.
Proof.
  intros H. rewrite num_connected_floor by lia.
  unfold max_num_nodes in H.
  destruct (Z.eqb_spec N 90); [lia|].
  pose proof (Z.div_mod (7 * N) 10 ltac:(lia)).
  pose proof (Z.mod_pos_bound (7 * N) 10 ltac:(lia)). lia.
Qed.

Lemma firstn_head (A : Type) n (x : A) l :
  (1 <= n)%nat -> In x (firstn n (x :: l)).
Proof. destruct n; [lia|]. cbn. auto. Qed.

Lemma feature_list_of_nonempty pool N :
  pool <> [] -> (1 <= N)%Z -> feature_list_of pool N <> [].
Proof.
  intros Hpool HN. unfold feature_list_of.
  rewrite py_slice_to_nonneg by lia.
  pose proof (sorted_length mz_le pool) as Hlen.
  destruct (sorted mz_le pool) as [|e l].
  - destruct pool; [congruence | discriminate Hlen].
  - destruct (Z.to_nat (N * 2)) eqn:E; [lia|]. discriminate.
Qed.

Lemma feature_list_of_length pool N :
  (0 <= N)%Z -> (length (feature_list_of pool N) <= length pool)%nat.
Proof.
  intros HN. unfold feature_list_of.
  rewrite length_map, py_slice_to_nonneg by lia.
  rewrite length_firstn, sorted_length. lia.
Qed.

Lemma build_network_nonempty pool ms2 N thr :
  pool <> [] ->
  (2 <= N <= max_num_nodes)%Z \/ (N = 1%Z /\ length pool = 1%nat) ->
  nodes (build_network pool ms2 N thr) <> [].
Proof.
  intros Hpool HN.
  assert (HN1 : (1 <= N <= max_num_nodes)%Z)
    by (unfold max_num_nodes in *; lia).
  assert (HN0 : (0 <= N <= max_num_nodes)%Z) by lia.
  pose proof (feature_list_of_nonempty Hpool (proj1 HN1)) as Hfl.
  pose proof (fun x => @build_network_nodes pool ms2 N thr x HN0) as Hnodes.
  cbv zeta in Hnodes.
  set (fl := feature_list_of pool N) in *.
  set (G := add_edges ms2 thr fl empty_graph) in *.
  assert (Hin : forall x, In x (selected_connected_of G N)
                          \/ In x (selected_singletons_of G fl N) ->
                          nodes (build_network pool ms2 N thr) <> []).
  { intros x Hx. apply (Hnodes x) in Hx.
    destruct (nodes (build_network pool ms2 N thr)); [destruct Hx|].
    discriminate. }
  destruct (singleton_candidates G fl) as [|c cand] eqn:Ecand.
  - destruct fl as [|x rest] eqn:Efl; [congruence|].
    assert (Hx : has_node G x = true /\ degree G x <> 0%nat).
    { assert (Hf : ~ In x (singleton_candidates G (x :: rest)))
        by (rewrite Ecand; intros []).
      unfold singleton_candidates in Hf. rewrite filter_In in Hf.
      destruct (has_node G x); cbn [negb orb] in Hf.
      - split; [reflexivity|]. intros Hd. apply Hf.
        split; [cbn; auto|]. apply Nat.eqb_eq. exact Hd.
      - exfalso. apply Hf. split; [cbn; auto | reflexivity]. }
    destruct HN as [HN|[HN Hlen]].
    + assert (Hc : In x (connected_nodes_sorted G)).
      { apply connected_nodes_sorted_In. split; [|lia].
        apply fid_in_true. apply Hx. }
      destruct (connected_nodes_sorted G) as [|y ys] eqn:Es; [destruct Hc|].
      apply (Hin y). left.
      rewrite selected_connected_firstn, Es by exact HN0.
      apply firstn_head. pose proof (quota_positive HN). lia.
    + exfalso.
      assert (Hl : (length (feature_list_of pool N) <= 1)%nat)
        by (rewrite <- Hlen; apply feature_list_of_length; lia).
      fold fl in Hl. rewrite Efl in Hl.
      destruct rest; [|cbn in Hl; lia].
      destruct Hx as [Hx _]. subst G. cbn in Hx. discriminate Hx.
  - apply (Hin c). right.
    rewrite selected_singletons_firstn, Ecand by exact HN0.
    apply firstn_head. pose proof (allowance_positive HN1). lia.
Qed.

(** X9. With the node count [main] passes, [create_network] returns a
    network without nodes exactly when no feature has both a fragment
    spectrum and an m/z of at most [max_mz].  Whether [main] stops with
    "No network created" therefore does not depend on
    [similarity_threshold]. *)
Theorem network_is_empty_iff_no_candidate :
  forall (features : dict feature) (ms2_spectra : dict spectrum)
         (requested : Z) (similarity_threshold max_mz : R),
    number_of_nodes
      (fst (create_network features ms2_spectra
                           (validate_num_nodes requested)
                           similarity_threshold max_mz)) = 0%nat
    <-> features_with_ms2 features ms2_spectra max_mz = [].
Proof.
  intros features ms2 requested thr max_mz.
  pose proof (validate_num_nodes_range requested) as HN.
  set (N := validate_num_nodes requested) in *.
  destruct (create_network_result features ms2 N thr max_mz)
    as [E | [Hpool E]].
  - rewrite E. cbn [fst empty_graph number_of_nodes nodes length].
    split; [intros _|reflexivity].
    unfold create_network in E.
    destruct (is_empty (features_with_ms2_all features ms2)) eqn:Eall.
    + unfold features_with_ms2.
      destruct (features_with_ms2_all features ms2); [reflexivity|].
      discriminate Eall.
    + destruct (features_with_ms2 features ms2 max_mz) as [|e pool];
        [reflexivity|].
      cbn [length Nat.eqb] in E. inversion E.
  - rewrite E. cbn [fst]. split; [|intros H; contradiction].
    intros H. exfalso. unfold number_of_nodes in H.
    apply length_zero_iff_nil in H. revert H.
    apply build_network_nonempty; [exact Hpool|].
    set (pool := features_with_ms2 features ms2 max_mz) in *.
    unfold clamp_num_nodes, max_num_nodes.
    destruct (Z.ltb_spec (Z.of_nat (length pool)) N) as [Hlt|Hge].
    + destruct pool as [|e [|e' pool]]; [congruence| |].
      * right; split; reflexivity.
      * left. cbn [length] in *. lia.
    + left. lia.
Qed.

End NetworkSizeFacts.

(* ================================================================== *)
(** * Further properties of [cosine_similarity_ms2] *)
(* ================================================================== *)

Section CosineFacts.

Lemma norm_nonzero_pos v : norm v <> 0 -> 0 < norm v.
Proof.
  intros H. unfold norm in *. pose proof (sqrt_pos (dot v v)). lra.
Qed.

Lemma align_self tol s :
  0 <= tol ->
  intensities (fst (align tol s s)) = intensities s /\
  intensities (snd (align tol s s)) = intensities s /\
  length (fst (align tol s s)) = length s.
Proof.
  intros Htol. unfold intensities.
  induction s as [|[m i] s (IH1 & IH2 & IH3)]; [repeat split; reflexivity|].
  rewrite align_cons.
  destruct (Rle_dec (Rabs (m - m)) tol) as [_|Hn].
  - cbn [emit fst snd map length].
    rewrite IH1, IH2, IH3. repeat split; reflexivity.
  - exfalso. apply Hn. replace (m - m) with 0 by ring.
    rewrite Rabs_R0. exact Htol.
Qed.

(** X10. Comparing a spectrum with itself, at a non-negative tolerance,
    pairs every peak with itself, whatever the order of the peaks: both
    aligned intensity vectors are the spectrum's own intensities, without
    padding, and the value returned is [dot(v, v) / (norm(v) * norm(v))]
    for that vector [v], or [0.0] when its norm is zero. *)
Theorem spectrum_compared_with_itself :
  forall (s : spectrum) (mz_tolerance : R),
    0 <= mz_tolerance ->
    s <> [] ->
    let v := intensities s in
    intensities (fst (align mz_tolerance s s)) = v /\
    intensities (snd (align mz_tolerance s s)) = v /\
    length (fst (align mz_tolerance s s)) = length s /\
    (norm v = 0 -> cosine_path s s mz_tolerance = ReturnZeroNorm) /\
    (norm v <> 0 ->
     cosine_path s s mz_tolerance = ReturnQuotient (dot v v) (norm v) (norm v)).
Proof.
  intros s tol Htol Hs v.
  destruct (align_self s Htol) as (H1 & H2 & H3). fold v in H1, H2.
  split; [exact H1|]. split; [exact H2|]. split; [exact H3|].
  unfold cosine_path. destruct s as [|q s']; [congruence|].
  cbn [is_empty orb]. cbv zeta. rewrite H1, H2.
  split; intros Hn.
  - destruct (Req_dec_T (norm v) 0); [reflexivity | contradiction].
  - destruct (Req_dec_T (norm v) 0); [contradiction | reflexivity].
Qed.

Lemma spectrum_compared_with_itself_witness :
  intensities (fst (align default_mz_tolerance [(60, 20); (50, 10)]
                          [(60, 20); (50, 10)]))
  = [20; 10].
Proof.
  assert (Htol : 0 <= default_mz_tolerance)
    by (unfold default_mz_tolerance; lra).
  assert (Hs : [(60, 20); (50, 10)] <> ([] : spectrum)) by discriminate.
  exact (proj1 (spectrum_compared_with_itself Htol Hs)).
Defined.

Lemma dot_nonneg v1 v2 :
  Forall (fun x => 0 <= x) v1 -> Forall (fun x => 0 <= x) v2 ->
  0 <= dot v1 v2.
Proof.
  intros H1. revert v2. induction H1 as [|x v1 Hx H1 IH];
    intros v2 H2; [cbn; lra|].
  destruct H2 as [|y v2 Hy H2]; cbn; [lra|].
  specialize (IH v2 H2). nra.
Qed.

Lemma align_nonneg tol :
  forall s1 s2,
    Forall (fun p => 0 <= snd p) s1 -> Forall (fun p => 0 <= snd p) s2 ->
    Forall (fun x => 0 <= x) (intensities (fst (align tol s1 s2))) /\
    Forall (fun x => 0 <= x) (intensities (snd (align tol s1 s2))).
Proof.
  assert (Hzero : forall s : spectrum,
             Forall (fun x => 0 <= x) (map snd (map (fun p => (fst p, 0)) s))).
  { intros s. induction s; cbn; constructor; [lra | assumption]. }
  assert (Hsame : forall s : spectrum,
             Forall (fun p => 0 <= snd p) s ->
             Forall (fun x => 0 <= x) (map snd s)).
  { intros s H. induction H; cbn; constructor; assumption. }
  unfold intensities.
  apply (align_induction
           (fun s1 s2 =>
              Forall (fun p => 0 <= snd p) s1 ->
              Forall (fun p => 0 <= snd p) s2 ->
              Forall (fun x => 0 <= x) (map snd (fst (align tol s1 s2))) /\
              Forall (fun x => 0 <= x) (map snd (snd (align tol s1 s2))))).
  - intros s2 _ H2. cbn. split; [apply Hzero | apply Hsame; exact H2].
  - intros s1 H1 _. rewrite align_nil_r. cbn.
    split; [apply Hsame; exact H1 | apply Hzero].
  - intros mz1 int1 rest1 mz2 int2 rest2 IHm IH1 IH2 H1 H2.
    rewrite align_cons.
    pose proof (Forall_inv H1) as Hi1. pose proof (Forall_inv_tail H1) as Hr1.
    pose proof (Forall_inv H2) as Hi2. pose proof (Forall_inv_tail H2) as Hr2.
    cbn [snd] in Hi1, Hi2.
    destruct (Rle_dec (Rabs (mz1 - mz2)) tol).
    + destruct (IHm Hr1 Hr2). cbn [emit fst snd map].
      split; constructor; assumption.
    + destruct (Rlt_dec mz1 mz2).
      * destruct (IH1 Hr1 H2). cbn [emit fst snd map].
        split; constructor; solve [assumption | lra].
      * destruct (IH2 H1 Hr2). cbn [emit fst snd map].
        split; constructor; solve [assumption | lra].
Qed.

(** X11. With no negative intensity in either spectrum, the score of
    [cosine_similarity_ms2] is never negative: the padding the alignment
    adds is zero, so every term of the dot product is non-negative. *)
Theorem cosine_similarity_nonnegative :
  forall (spectrum1 spectrum2 : spectrum) (mz_tolerance : R),
    Forall (fun p => 0 <= snd p) spectrum1 ->
    Forall (fun p => 0 <= snd p) spectrum2 ->
    0 <= dot (intensities (fst (align mz_tolerance spectrum1 spectrum2)))
             (intensities (snd (align mz_tolerance spectrum1 spectrum2))) /\
    0 <= cosine_similarity_ms2 spectrum1 spectrum2 mz_tolerance.
Proof.
  intros s1 s2 tol H1 H2.
  destruct (align_nonneg tol H1 H2) as [Ha Hb].
  pose proof (dot_nonneg Ha Hb) as Hdot. split; [exact Hdot|].
  unfold cosine_similarity_ms2.
  destruct (cosine_path s1 s2 tol) as [| |d n1 n2] eqn:E;
    cbn [returned_value]; [lra | lra |].
  destruct (cosine_path_quotient _ _ _ E) as (Hn1 & Hn2 & Hz1 & Hz2).
  assert (Hd : d = dot (intensities (fst (align tol s1 s2)))
                       (intensities (snd (align tol s1 s2)))).
  { unfold cosine_path in E.
    destruct (is_empty s1 || is_empty s2); [discriminate|].
    cbv zeta in E.
    destruct (Req_dec_T _ 0); [discriminate|].
    destruct (Req_dec_T _ 0); [discriminate|].
    injection E as <- _ _. reflexivity. }
  assert (Hp1 : 0 < n1) by (subst n1; apply norm_nonzero_pos; congruence).
  assert (Hp2 : 0 < n2) by (subst n2; apply norm_nonzero_pos; congruence).
  apply Rmult_le_pos; [rewrite Hd; exact Hdot|].
  apply Rlt_le, Rinv_0_lt_compat. nra.
Qed.

Lemma cosine_similarity_nonnegative_witness :
  0 <= cosine_similarity_ms2 [(50, 10); (70, 5)] [(60, 20); (70, 1)]
                             default_mz_tolerance.
Proof.
  apply cosine_similarity_nonnegative;
    repeat constructor; cbn [snd]; lra.
Defined.

Lemma scale_align c tol :
  forall s1 s2,
    intensities (fst (align tol (scale_intensities c s1) s2))
    = map (Rmult c) (intensities (fst (align tol s1 s2))) /\
    intensities (snd (align tol (scale_intensities c s1) s2))
    = intensities (snd (align tol s1 s2)) /\
    map fst (fst (align tol (scale_intensities c s1) s2))
    = map fst (fst (align tol s1 s2)).
Proof.
  unfold intensities.
  apply (align_induction
           (fun s1 s2 =>
              map snd (fst (align tol (scale_intensities c s1) s2))
              = map (Rmult c) (map snd (fst (align tol s1 s2))) /\
              map snd (snd (align tol (scale_intensities c s1) s2))
              = map snd (snd (align tol s1 s2)) /\
              map fst (fst (align tol (scale_intensities c s1) s2))
              = map fst (fst (align tol s1 s2)))).
  - intros s2. cbn. split; [|split; reflexivity].
    induction s2 as [|q s2 IH]; cbn; [reflexivity|].
    f_equal; [ring | exact IH].
  - intros s1. rewrite !align_nil_r. cbn.
    unfold scale_intensities. rewrite !map_map. repeat split; reflexivity.
  - intros mz1 int1 rest1 mz2 int2 rest2
           (IHm1 & IHm2 & IHm3) (IH11 & IH12 & IH13) (IH21 & IH22 & IH23).
    change (scale_intensities c ((mz1, int1) :: rest1))
      with ((mz1, c * int1) :: scale_intensities c rest1) in *.
    rewrite !align_cons.
    destruct (Rle_dec (Rabs (mz1 - mz2)) tol).
    + cbn [emit fst snd map]. rewrite IHm1, IHm2, IHm3.
      repeat split; reflexivity.
    + destruct (Rlt_dec mz1 mz2).
      * cbn [emit fst snd map]. rewrite IH11, IH12, IH13.
        repeat split; reflexivity.
      * cbn [emit fst snd map]. rewrite IH21, IH22, IH23.
        split; [|split; reflexivity]. f_equal. ring.
Qed.

(** X12. Which peaks are paired depends on the m/z values only: when every
    intensity of the first spectrum is multiplied by the same factor, the
    aligned m/z values and the second aligned intensity vector do not
    change, and the first aligned intensity vector is multiplied by that
    factor entry by entry. *)
Theorem alignment_ignores_intensities :
  forall (c : R) (spectrum1 spectrum2 : spectrum) (mz_tolerance : R),
    let aligned := align mz_tolerance spectrum1 spectrum2 in
    let scaled :=
      align mz_tolerance (scale_intensities c spectrum1) spectrum2 in
    intensities (fst scaled) = map (Rmult c) (intensities (fst aligned)) /\
    intensities (snd scaled) = intensities (snd aligned) /\
    map fst (fst scaled) = map fst (fst aligned).
Proof. intros c s1 s2 tol. cbv zeta. apply scale_align. Qed.

End CosineFacts.

(* ================================================================== *)
(** * Further properties of [extract_features_from_mzml] *)
(* ================================================================== *)

Section ExtractorInvariants.

Lemma max_fold_spec (l : list R) (b : R) :
  let M := fold_left (fun best x => if Rltb best x then x else best) l b in
  b <= M /\ (forall x, In x l -> x <= M) /\ (M = b \/ In M l).
Proof.
  revert b. induction l as [|y l IH]; intros b; cbn.
  - split; [lra|]. split; [intros x []|auto].
  - destruct (Rltb b y) eqn:E.
    + apply Rltb_true in E. destruct (IH y) as (H1 & H2 & H3).
      split; [lra|]. split.
      * intros x [<-|Hx]; [exact H1 | apply H2; exact Hx].
      * right. destruct H3 as [H3|H3]; [left; symmetry; exact H3|right; exact H3].
    + apply Rltb_false in E. destruct (IH b) as (H1 & H2 & H3).
      split; [exact H1|]. split.
      * intros x [<-|Hx]; [lra | apply H2; exact Hx].
      * destruct H3 as [H3|H3]; [left; exact H3 | right; right; exact H3].
Qed.

Lemma max_intensity_of_spec first others :
  (exists p, In p (first :: others)
             /\ snd p = max_intensity_of first others) /\
  forall p, In p (first :: others) ->
            snd p <= max_intensity_of first others.
Proof.
  unfold max_intensity_of.
  destruct (max_fold_spec (map snd others) (snd first)) as (H1 & H2 & H3).
  split.
  - destruct H3 as [H3|H3].
    + exists first. split; [left; reflexivity | symmetry; exact H3].
    + apply in_map_iff in H3. destruct H3 as (p & Hp & Hin).
      exists p. split; [right; exact Hin | exact Hp].
  - intros p [<-|Hin]; [exact H1|]. apply H2. apply in_map. exact Hin.
Qed.

(** X13. Of the peaks of an MS2 scan, [extract_features_from_mzml] keeps
    exactly those whose intensity is at least one fiftieth (2%) of the
    largest intensity of the scan, when that is not negative: the 1% term
    of the threshold never decides, and the most intense peak is always
    kept.  When the largest intensity is negative no peak is kept. *)
Theorem filter_peaks_keeps_two_percent :
  forall (first : peak) (others : list peak),
    let max_intensity := max_intensity_of first others in
    (exists p, In p (first :: others) /\ snd p = max_intensity) /\
    (forall p, In p (first :: others) -> snd p <= max_intensity) /\
    (0 <= max_intensity ->
     filter_peaks first others
     = filter (fun p => Rleb (max_intensity / 50) (snd p)) (first :: others)
     /\ filter_peaks first others <> []) /\
    (max_intensity < 0 -> filter_peaks first others = []).
Proof.
  intros first others M.
  destruct (max_intensity_of_spec first others) as [Hex Hmax].
  fold M in Hex, Hmax.
  split; [exact Hex|]. split; [exact Hmax|]. split.
  - intros HM.
    assert (Hthr : py_max (0.01 * M) (M / 50) = M / 50).
    { unfold py_max. destruct (Rltb (0.01 * M) (M / 50)) eqn:E;
        [reflexivity|]. apply Rltb_false in E. lra. }
    unfold filter_peaks. fold M. cbv zeta. rewrite Hthr.
    split; [reflexivity|].
    destruct Hex as (p & Hin & Hp).
    assert (Hk : In p (filter (fun p => Rleb (M / 50) (snd p))
                              (first :: others))).
    { apply filter_In. split; [exact Hin|]. apply Rleb_true. lra. }
    intros Hnil. rewrite Hnil in Hk. destruct Hk.
  - intros HM.
    assert (Hthr : py_max (0.01 * M) (M / 50) = 0.01 * M).
    { unfold py_max. destruct (Rltb (0.01 * M) (M / 50)) eqn:E;
        [|reflexivity]. apply Rltb_true in E. lra. }
    unfold filter_peaks. fold M. cbv zeta. rewrite Hthr.
    destruct (filter (fun p => Rleb (0.01 * M) (snd p)) (first :: others))
      as [|q qs] eqn:E; [reflexivity|].
    assert (Hq : In q (q :: qs)) by (left; reflexivity).
    rewrite <- E in Hq. apply filter_In in Hq. destruct Hq as [Hin Hq].
    apply Rleb_true in Hq. specialize (Hmax q Hin). lra.
Qed.

Lemma dict_set_fresh (V : Type) (d : dict V) k v :
  (forall v', ~ In (k, v') d) -> dict_set d k v = d ++ [(k, v)].
Proof.
  induction d as [|[k' v'] d IH]; intros H; cbn; [reflexivity|].
  destruct (fid_eqb k k') eqn:E.
  - apply fid_eqb_true in E. subst k'. exfalso. apply (H v'). left.
    reflexivity.
  - rewrite IH; [reflexivity|]. intros v0 Hin. apply (H v0). right.
    exact Hin.
Qed.

Lemma extractor_invariant_fresh_ms1 stem blank st v :
  extractor_invariant stem blank st ->
  ~ In (Ms1Feature stem (st_feature_counter st), v) (st_features st).
Proof.
  intros [H _] Hin. destruct (H _ _ Hin) as (_ & _ & _ & Hlt). lia.
Qed.

Lemma extractor_invariant_fresh_ms2 stem blank st v :
  extractor_invariant stem blank st ->
  ~ In (Ms2Feature stem (st_ms2_count st), v) (st_features st).
Proof.
  intros [H _] Hin. destruct (H _ _ Hin) as (_ & _ & _ & Hlt). lia.
Qed.

Lemma process_ms1_step stem blank st sp :
  extractor_invariant stem blank st ->
  extractor_invariant stem blank (process_ms1 stem blank st sp) /\
  exists added,
    st_features (process_ms1 stem blank st sp) = st_features st ++ added.
Proof.
  intros Hinv. unfold process_ms1.
  destruct (peaks sp) as [|first others];
    [split; [exact Hinv | exists []; symmetry; apply app_nil_r]|].
  destruct (Rltb 0 (snd (base_peak_of first others)));
    [|split; [exact Hinv | exists []; symmetry; apply app_nil_r]].
  rewrite dict_set_fresh
    by (intros v'; apply (extractor_invariant_fresh_ms1 _ Hinv)).
  split; [|eexists; reflexivity].
  destruct Hinv as [H1 H2]. split; cbn [st_features st_ms2_spectra
    st_feature_counter st_ms2_count].
  - intros fid feat Hin. apply in_app_or in Hin.
    destruct Hin as [Hin|[Hin|[]]].
    + destruct (H1 _ _ Hin) as (Hf & Hb & Hid).
      split; [exact Hf|]. split; [exact Hb|].
      destruct fid; [|exact Hid]. destruct Hid. split; [assumption | lia].
    + injection Hin as <- <-. cbn. repeat split. lia.
  - intros fid spec Hin. destruct (H2 _ _ Hin) as [Hne (feat & Hf)].
    split; [exact Hne|]. exists feat. apply in_or_app. left. exact Hf.
Qed.

Lemma find_best_feature_In features precursor fid :
  find_best_feature features precursor = Some fid ->
  exists feat, In (fid, feat) features.
Proof.
  intros E. pose proof (find_best_feature_spec features precursor) as H.
  rewrite E in H. destruct H as (i & feat & Hnth & _).
  exists feat. apply (nth_error_In _ _ Hnth).
Qed.

Lemma process_ms2_invariant stem blank st sp :
  extractor_invariant stem blank st ->
  extractor_invariant stem blank (process_ms2 stem blank st sp) /\
  exists added,
    st_features (process_ms2 stem blank st sp) = st_features st ++ added.
Proof.
  intros Hinv.
  assert (Hsame : extractor_invariant stem blank st /\
                  exists added, st_features st = st_features st ++ added)
    by (split; [exact Hinv | exists []; symmetry; apply app_nil_r]).
  unfold process_ms2.
  destruct (precursor_mz sp) as [precursor|]; [|exact Hsame].
  destruct (peaks sp) as [|first others]; [exact Hsame|].
  destruct (filter_peaks first others) as [|p ps] eqn:Ef; [exact Hsame|].
  destruct (find_best_feature (st_features st) precursor) as [best|] eqn:Eb.
  - split; [|exists []; symmetry; apply app_nil_r].
    destruct Hinv as [H1 H2]. split; cbn [st_features st_ms2_spectra
      st_feature_counter st_ms2_count].
    + intros fid feat Hin. destruct (H1 _ _ Hin) as (Hf & Hb & Hid).
      split; [exact Hf|]. split; [exact Hb|].
      destruct fid; [exact Hid|]. destruct Hid. split; [assumption | lia].
    + intros fid spec Hin. apply dict_set_In in Hin.
      destruct Hin as [Hin|[-> ->]]; [apply (H2 _ _ Hin)|].
      split; [discriminate|]. apply (find_best_feature_In _ _ Eb).
  - destruct blank; cbn [negb]; [exact Hsame|].
    rewrite (dict_set_fresh (st_features st))
      by (intros v'; apply (extractor_invariant_fresh_ms2 _ Hinv)).
    split; [|eexists; reflexivity].
    destruct Hinv as [H1 H2]. split; cbn [st_features st_ms2_spectra
      st_feature_counter st_ms2_count].
    + intros fid feat Hin. apply in_app_or in Hin.
      destruct Hin as [Hin|[Hin|[]]].
      * destruct (H1 _ _ Hin) as (Hf & Hb & Hid).
        split; [exact Hf|]. split; [exact Hb|].
        destruct fid; [exact Hid|]. destruct Hid.
        split; [assumption | lia].
      * injection Hin as <- <-. cbn. repeat split. lia.
    + intros fid spec Hin. apply dict_set_In in Hin.
      destruct Hin as [Hin|[-> ->]].
      * destruct (H2 _ _ Hin) as [Hne (feat & Hf)].
        split; [exact Hne|]. exists feat. apply in_or_app. left. exact Hf.
      * split; [discriminate|]. eexists. apply in_or_app. right. left.
        reflexivity.
Qed.

Lemma process_scan_invariant stem blank st sp :
  extractor_invariant stem blank st ->
  extractor_invariant stem blank (process_scan stem blank st sp) /\
  exists added,
    st_features (process_scan stem blank st sp) = st_features st ++ added.
Proof.
  intros Hinv. unfold process_scan.
  destruct (ms_level sp =? 1)%Z; [apply process_ms1_step; exact Hinv|].
  destruct (ms_level sp =? 2)%Z; [apply process_ms2_invariant; exact Hinv|].
  split; [exact Hinv | exists []; symmetry; apply app_nil_r].
Qed.

Lemma run_invariant stem blank run st :
  extractor_invariant stem blank st ->
  extractor_invariant stem blank (fold_left (process_scan stem blank) run st)
  /\ exists added,
      st_features (fold_left (process_scan stem blank) run st)
      = st_features st ++ added.
Proof.
  revert st. induction run as [|sp run IH]; intros st Hinv; cbn.
  - split; [exact Hinv | exists []; symmetry; apply app_nil_r].
  - destruct (process_scan_invariant sp Hinv) as [Hinv' (a1 & E1)].
    destruct (IH _ Hinv') as [Hinv'' (a2 & E2)].
    split; [exact Hinv''|]. exists (a1 ++ a2).
    rewrite E2, E1. symmetry. apply app_assoc.
Qed.

Lemma initial_state_invariant stem blank :
  extractor_invariant stem blank initial_state.
Proof. split; intros ? ? []. Qed.

(** X14. Whatever the scans of a file, the tables returned by
    [extract_features_from_mzml] are consistent: every fragment spectrum is
    non-empty and is stored under the identity of a feature of the feature
    table, and every feature carries the file's stem and the [is_blank]
    flag of the call. *)
Theorem extracted_tables_are_consistent :
  forall (stem : string) (blank : bool) (run : list scan),
    let tables := extract_features_from_mzml stem blank run in
    Forall (fun entry =>
              snd entry <> [] /\
              exists feat, In (fst entry, feat) (fst tables))
           (snd tables) /\
    Forall (fun entry =>
              file (snd entry) = stem /\ is_blank (snd entry) = blank)
           (fst tables).
Proof.
  intros stem blank run. cbv zeta.
  unfold extract_features_from_mzml, run_extractor. cbn [fst snd].
  destruct (run_invariant run (initial_state_invariant stem blank))
    as [[H1 H2] _].
  split; apply Forall_forall.
  - intros [fid spec] Hin. cbn [fst snd]. apply (H2 _ _ Hin).
  - intros [fid feat] Hin. cbn [fst snd].
    destruct (H1 _ _ Hin) as (Hf & Hb & _). auto.
Qed.

(** X15. Features are only ever appended: the feature table extracted from
    the first scans of a file is a prefix of the table extracted from the
    whole file, so no later scan changes or replaces a feature already
    recorded. *)
Theorem extracted_features_only_grow :
  forall (stem : string) (blank : bool) (run1 run2 : list scan),
    exists added,
      fst (extract_features_from_mzml stem blank (run1 ++ run2))
      = fst (extract_features_from_mzml stem blank run1) ++ added.
Proof.
  intros stem blank run1 run2.
  unfold extract_features_from_mzml, run_extractor. cbn [fst].
  rewrite fold_left_app.
  destruct (run_invariant run1 (initial_state_invariant stem blank))
    as [Hinv _].
  destruct (run_invariant run2 Hinv) as [_ Hadd]. exact Hadd.
Qed.

End ExtractorInvariants.

(* ================================================================== *)
(** * Further properties of [blank_subtraction] and of [main] *)
(* ================================================================== *)

Section PipelineFacts.

Lemma found_in_blank_monotone feat blank_features t1 t2 :
  t1 <= t2 ->
  found_in_blank feat blank_features t1 = true ->
  found_in_blank feat blank_features t2 = true.
Proof.
  intros Ht. rewrite !found_in_blank_spec.
  intros (bfid & bfeat & Hin & Hm). exists bfid, bfeat.
  split; [exact Hin|]. unfold spec_blank_match in *.
  destruct Hm as (H1 & H2 & H3 & H4). repeat split; try assumption. lra.
Qed.

(** X16. Raising the intensity-ratio threshold never brings a feature back:
    every feature that survives [blank_subtraction] at a threshold also
    survives it at any lower threshold. *)
Theorem blank_subtraction_monotone_in_threshold :
  forall (sample_features blank_features : dict feature) (t1 t2 : R),
    t1 <= t2 ->
    incl (blank_subtraction sample_features blank_features t2)
         (blank_subtraction sample_features blank_features t1).
Proof.
  intros sample blank_features t1 t2 Ht [fid feat].
  rewrite !blank_subtraction_filter, !filter_In. cbn [snd].
  intros [Hin Hf]. split; [exact Hin|].
  destruct (found_in_blank feat blank_features t1) eqn:E; [|reflexivity].
  rewrite (found_in_blank_monotone _ _ Ht E) in Hf. discriminate Hf.
Qed.

Lemma blank_subtraction_monotone_witness :
  incl (blank_subtraction three_features [] 3)
       (blank_subtraction three_features [] 1).
Proof. apply blank_subtraction_monotone_in_threshold. lra. Defined.

(** X17. No feature that matches the blank reaches the network of [main]:
    every node of the network has a feature of the merged sample table
    that is matched by no feature of the blank file, and a fragment
    spectrum in the table [main] exports from. *)
Theorem main_network_nodes_match_no_blank :
  forall (blank_file : option (string * list scan))
         (all_features : dict feature) (all_ms2 : dict spectrum)
         (num_nodes : Z) (max_mz similarity_threshold intensity_ratio : R),
    let result := main_network blank_file all_features all_ms2 num_nodes
                               max_mz similarity_threshold intensity_ratio in
    let network := fst (fst result) in
    let network_features := snd (fst result) in
    let exported_ms2 := snd result in
    Forall (fun node_id =>
              exists feat,
                In (node_id, feat) network_features /\
                In (node_id, feat) all_features /\
                dict_mem node_id exported_ms2 = true /\
                forall bfid bfeat,
                  In (bfid, bfeat) (fst (extract_blank blank_file)) ->
                  ~ spec_blank_match feat bfeat intensity_ratio)
           (nodes network).
Proof.
  intros blank_file all_features all_ms2 N max_mz thr ratio. cbv zeta.
  unfold main_network. cbn [fst snd].
  apply Forall_forall. intros x Hx.
  apply create_network_node_candidate in Hx.
  destruct Hx as (feat & Hnf & Hin & Hmem & _).
  exists feat. split; [exact Hnf|]. split; [|split; [exact Hmem|]].
  - unfold subtract_blank in Hin.
    destruct (_ && _) in Hin; cbn [fst] in Hin; [|exact Hin].
    rewrite blank_subtraction_filter in Hin. apply filter_In in Hin.
    tauto.
  - intros bfid bfeat Hb Hm. unfold subtract_blank in Hin.
    destruct blank_file as [[stem run]|]; [|destruct Hb].
    cbn [extract_blank andb] in *.
    destruct (fst (extract_features_from_mzml stem true run))
      as [|b0 bs] eqn:Eb; [destruct Hb|].
    cbn [is_empty negb fst] in Hin.
    rewrite blank_subtraction_filter in Hin. apply filter_In in Hin.
    destruct Hin as [_ Hf]. cbn [snd] in Hf.
    assert (Hfound : found_in_blank feat (b0 :: bs) ratio = true)
      by (apply found_in_blank_spec; eauto).
    rewrite Hfound in Hf. discriminate Hf.
Qed.

Lemma dict_get_In (V : Type) (d : dict V) k v :
  In (k, v) d -> exists v', dict_get d k = Some v'.
Proof.
  induction d as [|[k' v0] d IH]; intros Hin; [destruct Hin|]. cbn.
  destruct (fid_eqb k k') eqn:E; [eexists; reflexivity|].
  destruct Hin as [Hin|Hin]; [|apply IH; exact Hin].
  injection Hin as -> ->. rewrite fid_eqb_refl in E. discriminate E.
Qed.

Lemma mgf_feature_ids_app a b :
  mgf_feature_ids (a ++ b) = mgf_feature_ids a ++ mgf_feature_ids b.
Proof.
  induction a as [|w a IH]; [reflexivity|].
  destruct w; cbn; rewrite IH; reflexivity.
Qed.

Lemma mgf_feature_ids_peaks (spec : spectrum) :
  mgf_feature_ids (map (fun p => MgfPeak (fst p) (snd p)) spec) = [].
Proof. induction spec as [|p spec IH]; [reflexivity | exact IH]. Qed.

Lemma mgf_feature_ids_entry node_id feat spec :
  mgf_feature_ids (mgf_entry node_id feat spec) = [node_id].
Proof.
  unfold mgf_entry. cbn [app mgf_feature_ids].
  rewrite !mgf_feature_ids_app, mgf_feature_ids_peaks.
  destruct (truthy (rt feat)); reflexivity.
Qed.

Lemma export_mgf_nodes_complete features ms2 node_ids :
  (forall x, In x node_ids ->
             dict_mem x ms2 = true /\ exists feat, In (x, feat) features) ->
  exists writes,
    export_mgf_nodes features ms2 node_ids = Some writes /\
    mgf_feature_ids writes = node_ids.
Proof.
  induction node_ids as [|x rest IH]; intros H; [exists []; auto|].
  destruct IH as (writes & Ew & Eids);
    [intros y Hy; apply H; right; exact Hy|].
  destruct (H x (or_introl eq_refl)) as [Hmem (feat & Hin)].
  cbn [export_mgf_nodes]. unfold dict_mem in Hmem.
  destruct (dict_get ms2 x) as [spec|]; [|discriminate Hmem].
  destruct (dict_get_In _ _ _ Hin) as (feat' & ->). rewrite Ew.
  eexists. split; [reflexivity|].
  rewrite mgf_feature_ids_app, mgf_feature_ids_entry, Eids. reflexivity.
Qed.

(** X18. [export_mgf], called as [main] calls it on the network and feature
    table returned by [create_network] and on the fragment table that was
    passed to [create_network], never fails on a missing feature, and the
    [FEATURE_ID] lines it writes are exactly the nodes of the network, each
    once and in the order of [network.nodes()]. *)
Theorem export_mgf_writes_every_node :
  forall (features : dict feature) (ms2_spectra : dict spectrum)
         (num_nodes : Z) (similarity_threshold max_mz : R),
    let created := create_network features ms2_spectra num_nodes
                                  similarity_threshold max_mz in
    exists writes,
      export_mgf (snd created) ms2_spectra (fst created) = Some writes /\
      mgf_feature_ids writes = nodes (fst created).
Proof.
  intros features ms2 N thr max_mz. cbv zeta. unfold export_mgf.
  apply export_mgf_nodes_complete. intros x Hx.
  apply create_network_node_candidate in Hx.
  destruct Hx as (feat & Hnf & _ & Hmem & _). eauto.
Qed.

End PipelineFacts.

(* ================================================================== *)
(** * Properties of the node numbering of the XGMML export *)
(* ================================================================== *)

Section NumberingFacts.

Lemma dict_get_set_same (V : Type) (d : dict V) k v :
  dict_get (dict_set d k v) k = Some v.
Proof.
  induction d as [|[k' v'] d IH]; cbn.
  - rewrite fid_eqb_refl. reflexivity.
  - destruct (fid_eqb k k') eqn:E; cbn; rewrite E; [reflexivity | exact IH].
Qed.

Lemma dict_get_set_other (V : Type) (d : dict V) k v k' :
  k' <> k -> dict_get (dict_set d k v) k' = dict_get d k'.
Proof.
  intros Hne. induction d as [|[k0 v0] d IH]; cbn.
  - destruct (fid_eqb k' k) eqn:E; [|reflexivity].
    apply fid_eqb_true in E. contradiction.
  - destruct (fid_eqb k k0) eqn:E; cbn.
    + apply fid_eqb_true in E. subst k0.
      destruct (fid_eqb k' k) eqn:E'; [|reflexivity].
      apply fid_eqb_true in E'. contradiction.
    + rewrite IH. reflexivity.
Qed.

Lemma number_nodes_other node_ids start acc x :
  ~ In x node_ids ->
  dict_get (number_nodes node_ids start acc) x = dict_get acc x.
Proof.
  revert start acc. induction node_ids as [|y rest IH]; intros start acc H;
    cbn; [reflexivity|].
  rewrite IH by (intros Hin; apply H; right; exact Hin).
  apply dict_get_set_other. intros ->. apply H. left. reflexivity.
Qed.

Lemma number_nodes_nth node_ids start acc i x :
  NoDup node_ids -> nth_error node_ids i = Some x ->
  dict_get (number_nodes node_ids start acc) x = Some (start + i)%nat.
Proof.
  intros Hnd. revert start acc i.
  induction Hnd as [|y rest Hy Hnd IH]; intros start acc i Hnth;
    [destruct i; discriminate Hnth|].
  destruct i as [|i]; cbn in Hnth |- *.
  - injection Hnth as ->. rewrite number_nodes_other by exact Hy.
    rewrite dict_get_set_same. f_equal. lia.
  - rewrite (IH _ _ _ Hnth). f_equal. lia.
Qed.

Lemma node_id_to_num_spec g i x :
  NoDup (nodes g) -> nth_error (nodes g) i = Some x ->
  dict_get (node_id_to_num g) x = Some (S i).
Proof.
  intros Hnd Hnth. unfold node_id_to_num.
  rewrite (@number_nodes_nth (nodes g) 1 [] i x Hnd Hnth). reflexivity.
Qed.

Lemma edge_numbers_spec g u v w :
  wf_graph g -> In (u, v, w) (edges g) ->
  exists i j,
    edge_numbers g (u, v, w) = Some (S i, S j) /\
    nth_error (nodes g) i = Some u /\ nth_error (nodes g) j = Some v.
Proof.
  intros [Hnd Hclosed] Hin. destruct (Hclosed _ _ _ Hin) as [Hu Hv].
  apply In_nth_error in Hu. apply In_nth_error in Hv.
  destruct Hu as [i Hi], Hv as [j Hj]. exists i, j.
  unfold edge_numbers. cbn [fst snd].
  rewrite (@node_id_to_num_spec g i u Hnd Hi), (@node_id_to_num_spec g j v Hnd Hj).
  auto.
Qed.

Lemma create_network_wf features ms2 N thr max_mz :
  wf_graph (fst (create_network features ms2 N thr max_mz)).
Proof.
  destruct (create_network_result features ms2 N thr max_mz)
    as [-> | [_ ->]]; cbn [fst]; [apply empty_graph_wf|].
  apply build_network_wf.
Qed.

(** X19. In the XGMML export of a network returned by [create_network],
    the nodes are numbered 1, 2, ... in the order of [network.nodes()], and
    for every edge both lookups of [node_id_to_num] succeed: the [source]
    and [target] written are the numbers of the edge's two endpoints. *)
Theorem xgmml_edges_refer_to_their_endpoints :
  forall (features : dict feature) (ms2_spectra : dict spectrum)
         (num_nodes : Z) (similarity_threshold max_mz : R),
    let network := fst (create_network features ms2_spectra num_nodes
                                       similarity_threshold max_mz) in
    (forall i node_id,
        nth_error (nodes network) i = Some node_id ->
        dict_get (node_id_to_num network) node_id = Some (S i)) /\
    Forall (fun e =>
              exists i j,
                edge_numbers network e = Some (S i, S j) /\
                nth_error (nodes network) i = Some (fst (fst e)) /\
                nth_error (nodes network) j = Some (snd (fst e)))
           (edges network).
Proof.
  intros features ms2 N thr max_mz network.
  pose proof (create_network_wf features ms2 N thr max_mz) as Hwf.
  fold network in Hwf. split.
  - intros i x. apply node_id_to_num_spec. apply Hwf.
  - apply Forall_forall. intros [[u v] w] Hin. cbn [fst snd].
    apply (@edge_numbers_spec network u v w Hwf Hin).
Qed.

End NumberingFacts.

(* ================================================================== *)
(** * Properties of the candidate list of [create_network] *)
(* ================================================================== *)

Section CandidateFacts.

Lemma NoDup_map_filter (A B : Type) (f : A -> B) (p : A -> bool) l :
  NoDup (map f l) -> NoDup (map f (filter p l)).
Proof.
  induction l as [|x l IH]; cbn; intros H; [constructor|].
  inversion H as [|? ? Hx Hl]; subst.
  destruct (p x); [|apply IH; exact Hl].
  cbn. constructor; [|apply IH; exact Hl].
  intros Hin. apply Hx. apply in_map_iff in Hin.
  destruct Hin as (y & Hy & Hin). apply filter_In in Hin.
  apply in_map_iff. exists y. tauto.
Qed.

Lemma NoDup_map_firstn (A B : Type) (f : A -> B) k l :
  NoDup (map f l) -> NoDup (map f (firstn k l)).
Proof.
  revert k. induction l as [|x l IH]; intros k H;
    [rewrite firstn_nil; constructor|].
  destruct k; [constructor|]. cbn in H |- *.
  inversion H as [|? ? Hx Hl]; subst.
  constructor; [|apply IH; exact Hl].
  intros Hin. apply Hx. apply in_map_iff in Hin.
  destruct Hin as (y & Hy & Hin). apply firstn_subset in Hin.
  apply in_map_iff. exists y. tauto.
Qed.

Lemma feature_list_of_nodup pool N :
  NoDup (map fst pool) -> NoDup (feature_list_of pool N).
Proof.
  intros H. unfold feature_list_of, py_slice_to.
  assert (Hs : NoDup (map fst (sorted mz_le pool))).
  { apply (Permutation_NoDup
             (Permutation_sym (Permutation_map fst (sorted_perm mz_le pool)))).
    exact H. }
  destruct (N * 2 <? 0)%Z; apply NoDup_map_firstn; exact Hs.
Qed.

Lemma add_edge_edges_In u v w g a b w' :
  In (a, b, w') (edges (add_edge u v w g)) ->
  (exists w0, In (a, b, w0) (edges g)) \/ (a = u /\ b = v).
Proof.
  unfold add_edge. rewrite !add_node_edges.
  destruct (existsb (same_edge u v) (edges g)); cbn [edges]; intros H.
  - apply in_map_iff in H. destruct H as ([[a0 b0] w0] & He & Hin).
    left. exists w0.
    destruct (same_edge u v (a0, b0, w0)); cbn [fst] in He;
      injection He as -> -> _; exact Hin.
  - apply in_app_or in H. destruct H as [H|[H|[]]]; [left; eauto|].
    injection H as <- <- _. auto.
Qed.

Lemma add_edges_from_edges_In ms2 thr fid1 later g a b w :
  In (a, b, w) (edges (add_edges_from ms2 thr fid1 later g)) ->
  (exists w0, In (a, b, w0) (edges g)) \/ (a = fid1 /\ In b later).
Proof.
  unfold add_edges_from. revert g.
  induction later as [|fid2 later IH]; intros g H; cbn in H; [eauto|].
  apply IH in H. destruct H as [(w0 & H)|[Ha Hb]]; [|cbn; auto].
  destruct (Rleb thr (similarity ms2 fid1 fid2)); [|eauto].
  apply add_edge_edges_In in H. destruct H as [H|[-> ->]]; [auto|].
  right. cbn. auto.
Qed.

Lemma add_edges_no_loop ms2 thr feature_list g :
  NoDup feature_list ->
  (forall a b w, In (a, b, w) (edges g) -> a <> b) ->
  forall a b w,
    In (a, b, w) (edges (add_edges ms2 thr feature_list g)) -> a <> b.
Proof.
  intros Hnd. revert g.
  induction Hnd as [|fid1 later Hfresh Hnd IH]; intros g Hg; [exact Hg|].
  cbn [add_edges]. apply IH. intros a b w H.
  apply add_edges_from_edges_In in H.
  destruct H as [(w0 & H)|[-> Hb]]; [apply (Hg _ _ _ H)|].
  intros ->. contradiction.
Qed.

(** X20. When the identities of the feature table are distinct, as the keys
    of a dictionary are, no edge of the network returned by
    [create_network] joins a node to itself. *)
Theorem create_network_has_no_self_loop :
  forall (features : dict feature) (ms2_spectra : dict spectrum)
         (num_nodes : Z) (similarity_threshold max_mz : R),
    NoDup (map fst features) ->
    Forall (fun e => fst (fst e) <> snd (fst e))
           (edges (fst (create_network features ms2_spectra num_nodes
                                       similarity_threshold max_mz))).
Proof.
  intros features ms2 N thr max_mz Hnd.
  destruct (create_network_result features ms2 N thr max_mz)
    as [-> | [_ ->]]; cbn [fst]; [constructor|].
  apply Forall_forall. intros [[a b] w] Hin. cbn [fst snd].
  unfold build_network in Hin. apply subgraph_edges in Hin.
  destruct Hin as [Hin _]. rewrite add_singletons_edges in Hin.
  revert a b w Hin. apply add_edges_no_loop; [|intros a b w []].
  apply feature_list_of_nodup.
  unfold features_with_ms2, features_with_ms2_all.
  apply NoDup_map_filter, NoDup_map_filter. exact Hnd.
Qed.

Lemma four_features_distinct : NoDup (map fst four_features).
Proof.
  cbn. repeat constructor; cbn; intuition discriminate.
Qed.

Lemma create_network_has_no_self_loop_witness :
  Forall (fun e => fst (fst e) <> snd (fst e))
         (edges (fst (create_network four_features four_spectra 4
                       default_similarity_threshold default_max_mz))).
Proof.
  apply create_network_has_no_self_loop. exact four_features_distinct.
Defined.

Lemma filter_length_perm (A : Type) (p : A -> bool) l l' :
  Permutation l l' -> length (filter p l) = length (filter p l').
Proof.
  induction 1 as [|x l l' _ IH|x y l|l l' l'' _ IH1 _ IH2]; cbn.
  - reflexivity.
  - destruct (p x); cbn; rewrite IH; reflexivity.
  - destruct (p x), (p y); reflexivity.
  - rewrite IH1. exact IH2.
Qed.

Lemma firstn_nth_error (A : Type) k (l : list A) e :
  In e (firstn k l) -> exists i, (i < k)%nat /\ nth_error l i = Some e.
Proof.
  revert k. induction l as [|x l IH]; intros k H;
    [rewrite firstn_nil in H; destruct H|].
  destruct k; [destruct H|]. cbn in H. destruct H as [->|H].
  - exists 0%nat. split; [lia | reflexivity].
  - destruct (IH _ H) as (i & Hi & Hnth). exists (S i).
    split; [lia | exact Hnth].
Qed.

Lemma sorted_prefix_count (l : dict feature) i e :
  StronglySorted (fun a b => mz_le a b = true) l ->
  nth_error l i = Some e ->
  (count_below l (mz (snd e)) <= i)%nat.
Proof.
  intros Hs. revert i. unfold count_below.
  induction Hs as [|y l Hs IH Hall]; intros i Hnth;
    [destruct i; discriminate Hnth|].
  destruct i as [|i]; cbn in Hnth.
  - injection Hnth as ->.
    assert (Hnone : forall l', Forall (fun b => mz_le e b = true) l' ->
               filter (fun entry => Rltb (mz (snd entry)) (mz (snd e)))
                      (e :: l') = []).
    { intros l' Hl'. cbn.
      assert (E : Rltb (mz (snd e)) (mz (snd e)) = false)
        by (apply Rltb_false; lra).
      rewrite E. induction Hl' as [|b l' Hb _ IHl']; [reflexivity|]. cbn.
      unfold mz_le in Hb. apply Rleb_true in Hb.
      assert (E' : Rltb (mz (snd b)) (mz (snd e)) = false)
        by (apply Rltb_false; lra).
      rewrite E'. exact IHl'. }
    rewrite (Hnone l Hall). cbn. lia.
  - specialize (IH _ Hnth). cbn.
    destruct (Rltb (mz (snd y)) (mz (snd e))); cbn [length]; lia.
Qed.

Lemma feature_list_of_rank pool N x :
  (0 <= N)%Z -> In x (feature_list_of pool N) ->
  exists feat,
    In (x, feat) pool /\ (Z.of_nat (count_below pool (mz feat)) < 2 * N)%Z.
Proof.
  intros HN H. unfold feature_list_of in H.
  rewrite py_slice_to_nonneg in H by lia.
  apply in_map_iff in H. destruct H as ([fid feat] & Hfst & Hin).
  cbn [fst] in Hfst. subst fid. exists feat.
  destruct (@firstn_nth_error _ _ _ _ Hin) as (i & Hi & Hnth).
  split.
  - apply (sorted_In mz_le). apply (nth_error_In _ _ Hnth).
  - pose proof (@sorted_prefix_count _ _ _
                  (sorted_ordered mz_le mz_le_total mz_le_trans pool)
                  Hnth) as Hc.
    cbn [snd] in Hc. unfold count_below in *.
    rewrite (filter_length_perm _ (sorted_perm mz_le pool)) in Hc. lia.
Qed.

(** X21. The network is drawn from the low end of the m/z range: with [N]
    the node count [main] passes, lowered to the number of candidate
    features if that is smaller, every node of the network has a feature
    with fewer than [2 * N] candidate features of strictly smaller m/z. *)
Theorem network_nodes_have_lowest_mz :
  forall (features : dict feature) (ms2_spectra : dict spectrum)
         (requested : Z) (similarity_threshold max_mz : R),
    let pool := features_with_ms2 features ms2_spectra max_mz in
    let N := clamp_num_nodes (length pool) (validate_num_nodes requested) in
    Forall (fun node_id =>
              exists feat,
                In (node_id, feat) pool /\
                (Z.of_nat (count_below pool (mz feat)) < 2 * N)%Z)
           (nodes (fst (create_network features ms2_spectra
                                       (validate_num_nodes requested)
                                       similarity_threshold max_mz))).
Proof.
  intros features ms2 requested thr max_mz pool N.
  pose proof (validate_num_nodes_range requested) as HN.
  destruct (create_network_result features ms2
              (validate_num_nodes requested) thr max_mz)
    as [-> | [_ ->]]; cbn [fst]; [constructor|].
  apply Forall_forall. intros x Hx.
  apply build_network_nodes_incl in Hx.
  apply feature_list_of_rank; [|exact Hx].
  apply clamp_num_nodes_range. unfold max_num_nodes. lia.
Qed.

End CandidateFacts.

(* ================================================================== *)
(** * Spectra without a common fragment, blank intensities, and the
      connected share of the network *)
(* ================================================================== *)

Section FurtherFacts.

Lemma align_disjoint_dot tol :
  forall s1 s2,
    (forall p1 p2, In p1 s1 -> In p2 s2 ->
                   ~ Rabs (fst p1 - fst p2) <= tol) ->
    dot (intensities (fst (align tol s1 s2)))
        (intensities (snd (align tol s1 s2))) = 0.
Proof.
  apply (align_induction
           (fun s1 s2 =>
              (forall p1 p2, In p1 s1 -> In p2 s2 ->
                             ~ Rabs (fst p1 - fst p2) <= tol) ->
              dot (intensities (fst (align tol s1 s2)))
                  (intensities (snd (align tol s1 s2))) = 0)).
  - intros s2 _. unfold intensities. cbn.
    induction s2 as [|[m i] s2 IH]; cbn; [reflexivity|].
    rewrite IH. ring.
  - intros s1 _. rewrite align_nil_r. unfold intensities. cbn.
    induction s1 as [|[m i] s1 IH]; cbn; [reflexivity|].
    rewrite IH. ring.
  - intros mz1 int1 rest1 mz2 int2 rest2 _ IH1 IH2 H.
    rewrite align_cons.
    destruct (Rle_dec (Rabs (mz1 - mz2)) tol) as [Hm|_].
    + exfalso. apply (H (mz1, int1) (mz2, int2)); [left| left|];
        solve [reflexivity | exact Hm].
    + destruct (Rlt_dec mz1 mz2).
      * unfold intensities in *. cbn [emit fst snd map dot].
        rewrite IH1; [ring|]. intros p1 p2 H1 H2. apply H; [right|];
          assumption.
      * unfold intensities in *. cbn [emit fst snd map dot].
        rewrite IH2; [ring|]. intros p1 p2 H1 H2. apply H; [|right];
          assumption.
Qed.

(** X22. Spectra without a common fragment score 0: when no peak of the
    first spectrum lies within the tolerance of a peak of the second,
    [cosine_similarity_ms2] returns 0. *)
Theorem cosine_similarity_of_disjoint_spectra :
  forall (spectrum1 spectrum2 : spectrum) (mz_tolerance : R),
    (forall p1 p2, In p1 spectrum1 -> In p2 spectrum2 ->
                   ~ Rabs (fst p1 - fst p2) <= mz_tolerance) ->
    cosine_similarity_ms2 spectrum1 spectrum2 mz_tolerance = 0.
Proof.
  intros s1 s2 tol H. unfold cosine_similarity_ms2.
  apply returned_value_zero_dot. unfold cosine_path.
  destruct (is_empty s1 || is_empty s2); [exact I|].
  cbv zeta.
  destruct (Req_dec_T _ 0); [exact I|].
  destruct (Req_dec_T _ 0); [exact I|].
  apply align_disjoint_dot. exact H.
Qed.

Lemma cosine_similarity_of_disjoint_spectra_witness :
  cosine_similarity_ms2 [(50, 10)] [(60, 10)] default_mz_tolerance = 0.
Proof.
  apply cosine_similarity_of_disjoint_spectra.
  intros p1 p2 [<-|[]] [<-|[]]. cbn [fst].
  unfold default_mz_tolerance. rewrite Rabs_le_iff. lra.
Defined.

Lemma blank_step_positive stem st sp :
  (forall fid feat, In (fid, feat) (st_features st) -> 0 < intensity feat) ->
  forall fid feat,
    In (fid, feat) (st_features (process_scan stem true st sp)) ->
    0 < intensity feat.
Proof.
  intros Hst. unfold process_scan.
  destruct (ms_level sp =? 1)%Z.
  - unfold process_ms1. destruct (peaks sp) as [|first others]; [exact Hst|].
    destruct (Rltb 0 (snd (base_peak_of first others))) eqn:E;
      [|exact Hst].
    apply Rltb_true in E. cbn [st_features]. intros fid feat Hin.
    apply dict_set_In in Hin. destruct Hin as [Hin|[_ ->]];
      [apply (Hst _ _ Hin) | exact E].
  - destruct (ms_level sp =? 2)%Z; [|exact Hst].
    unfold process_ms2.
    destruct (precursor_mz sp); [|exact Hst].
    destruct (peaks sp) as [|first others]; [exact Hst|].
    destruct (filter_peaks first others); [exact Hst|].
    destruct (find_best_feature (st_features st) r); exact Hst.
Qed.

(** X23. Every feature extracted from a blank file has a positive
    intensity, so in [main] the guard [blank_feat['intensity'] > 0] of
    [blank_subtraction] holds for every blank feature and the intensity
    ratio is always compared. *)
Theorem blank_features_have_positive_intensity :
  forall (stem : string) (run : list scan),
    Forall (fun entry => 0 < intensity (snd entry))
           (fst (extract_features_from_mzml stem true run)).
Proof.
  intros stem run. unfold extract_features_from_mzml, run_extractor.
  cbn [fst]. apply Forall_forall. intros [fid feat] Hin. cbn [snd].
  revert fid feat Hin.
  apply (fold_left_invariant (process_scan stem true)
           (fun st => forall fid feat,
                        In (fid, feat) (st_features st) ->
                        0 < intensity feat)).
  - intros st sp Hst. apply blank_step_positive. exact Hst.
  - intros fid feat [].
Qed.

Lemma degree_positive_node g x :
  wf_graph g -> (0 < degree g x)%nat -> In x (nodes g).
Proof.
  intros [_ Hclosed]. unfold degree.
  induction (edges g) as [|[[a b] w] l IH]; cbn; [lia|].
  intros Hd.
  destruct (fid_eqb a x) eqn:Ea.
  - apply fid_eqb_true in Ea. subst a.
    apply (Hclosed x b w). left. reflexivity.
  - destruct (fid_eqb b x) eqn:Eb.
    + apply fid_eqb_true in Eb. subst b.
      apply (Hclosed a x w). left. reflexivity.
    + apply IH; [|exact Hd].
      intros u v w' Hin. apply (Hclosed u v w'). right. exact Hin.
Qed.

Lemma degree_subgraph_le g selected x :
  (degree (subgraph g selected) x <= degree g x)%nat.
Proof.
  unfold degree, subgraph. cbn [edges].
  induction (edges g) as [|e l IH]; cbn; [lia|].
  destruct (fid_in (fst (fst e)) selected && fid_in (snd (fst e)) selected);
    cbn; lia.
Qed.

Lemma build_network_connected_incl pool ms2 N thr x :
  (0 <= N <= max_num_nodes)%Z ->
  In x (connected_nodes (build_network pool ms2 N thr)) ->
  In x (selected_connected_of
          (add_edges ms2 thr (feature_list_of pool N) empty_graph) N).
Proof.
  intros HN Hx. unfold connected_nodes in Hx. apply filter_In in Hx.
  destruct Hx as [Hnode Hdeg]. apply Nat.ltb_lt in Hdeg.
  apply (@build_network_nodes pool ms2 N thr x HN) in Hnode.
  destruct Hnode as [Hc|Hs]; [exact Hc|]. exfalso.
  set (fl := feature_list_of pool N) in *.
  set (G := add_edges ms2 thr fl empty_graph) in *.
  assert (HdG : (0 < degree G x)%nat).
  { unfold build_network in Hdeg. fold fl G in Hdeg.
    pose proof (degree_subgraph_le
                  (add_singletons (selected_singletons_of G fl N) G)
                  (selected_nodes_of (selected_connected_of G N)
                     (selected_singletons_of G fl N) N) x) as Hle.
    unfold degree in Hle at 2. rewrite add_singletons_edges in Hle.
    fold (degree G x) in Hle. lia. }
  unfold selected_singletons_of in Hs. apply py_slice_to_incl in Hs.
  unfold singleton_candidates in Hs. apply filter_In in Hs.
  destruct Hs as [_ Hs]. apply orb_true_iff in Hs.
  destruct Hs as [Hs|Hs].
  - apply negb_true_iff in Hs. unfold has_node in Hs.
    apply fid_in_false in Hs. apply Hs.
    apply degree_positive_node; [|exact HdG].
    apply add_edges_wf, empty_graph_wf.
  - apply Nat.eqb_eq in Hs. lia.
Qed.

(** X24. At most the connected quota of nodes is linked: with [N] the node
    count [main] passes, lowered to the number of candidate features if
    that is smaller, the number of nodes of the returned network that have
    an edge (the "connected nodes" count the script prints) is at most
    [int(N * 0.7)]. *)
Theorem connected_share_is_at_most_the_quota :
  forall (features : dict feature) (ms2_spectra : dict spectrum)
         (requested : Z) (similarity_threshold max_mz : R),
    let pool := features_with_ms2 features ms2_spectra max_mz in
    let N := clamp_num_nodes (length pool) (validate_num_nodes requested) in
    let G := fst (create_network features ms2_spectra
                                 (validate_num_nodes requested)
                                 similarity_threshold max_mz) in
    (Z.of_nat (length (connected_nodes G)) <= num_connected_of N)%Z.
Proof.
  intros features ms2 requested thr max_mz pool N G.
  pose proof (validate_num_nodes_range requested) as Hv.
  assert (HN : (0 <= N <= max_num_nodes)%Z).
  { apply clamp_num_nodes_range. unfold max_num_nodes. lia. }
  pose proof (num_connected_range HN) as Hq.
  subst G.
  destruct (create_network_result features ms2
              (validate_num_nodes requested) thr max_mz)
    as [-> | [_ ->]]; cbn [fst]; [cbn; lia|].
  fold pool. fold N.
  set (net := build_network pool ms2 N thr).
  set (G := add_edges ms2 thr (feature_list_of pool N) empty_graph).
  assert (Hincl : incl (connected_nodes net) (selected_connected_of G N)).
  { intros x Hx. apply build_network_connected_incl; assumption. }
  assert (Hnd : NoDup (connected_nodes net)).
  { unfold connected_nodes. apply NoDup_filter.
    apply (build_network_wf pool ms2 N thr). }
  pose proof (NoDup_incl_length Hnd Hincl) as Hlen.
  rewrite (selected_connected_firstn G HN) in Hlen.
  rewrite length_firstn in Hlen. lia.
Qed.

End FurtherFacts.

(* ================================================================== *)
(** * The selection quotas, and the attachment of an MS2 scan *)
(* ================================================================== *)

Section SelectionAndAttachment.

Lemma StronglySorted_app_inv (A : Type) (R : A -> A -> Prop) l1 l2 x y :
  StronglySorted R (l1 ++ l2) -> In x l1 -> In y l2 -> R x y.
Proof.
  induction l1 as [|a l1 IH]; intros Hs Hx Hy; [destruct Hx|].
  cbn in Hs. inversion Hs as [|? ? Hs' Hall]; subst.
  destruct Hx as [->|Hx]; [|apply IH; assumption].
  rewrite Forall_forall in Hall. apply Hall. apply in_or_app. right.
  exact Hy.
Qed.

Lemma StronglySorted_firstn (A : Type) (R : A -> A -> Prop) k l :
  StronglySorted R l -> StronglySorted R (firstn k l).
Proof.
  intros Hs. revert k. induction Hs as [|a l Hs IH Hall]; intros k;
    [rewrite firstn_nil; constructor|].
  destruct k; [constructor|]. cbn. constructor; [apply IH|].
  rewrite Forall_forall in *. intros x Hx. apply Hall.
  apply (firstn_subset _ _ _ Hx).
Qed.

Lemma StronglySorted_weaken (A : Type) (R R' : A -> A -> Prop) l :
  (forall a b, R a b -> R' a b) ->
  StronglySorted R l -> StronglySorted R' l.
Proof.
  intros HR. induction 1 as [|a l Hs IH Hall]; constructor; [exact IH|].
  rewrite Forall_forall in *. intros x Hx. apply HR, Hall. exact Hx.
Qed.

Lemma singleton_candidates_isolated ms2 thr feature_list fl :
  let G := add_edges ms2 thr feature_list empty_graph in
  singleton_candidates G fl
  = filter (fun fid => (degree G fid =? 0)%nat) fl.
Proof.
  intros G. unfold singleton_candidates. apply filter_ext. intros x.
  destruct (degree G x =? 0)%nat eqn:E; [apply orb_true_r|].
  rewrite orb_false_r. apply negb_false_iff. unfold has_node.
  apply fid_in_true. apply Nat.eqb_neq in E.
  apply degree_positive_node; [|lia].
  apply add_edges_wf, empty_graph_wf.
Qed.

Lemma quota_closed_form N :
  (0 <= N <= max_num_nodes)%Z ->
  num_connected_of N
  = Z.of_nat (if (N =? 90)%Z then 62%nat else Z.to_nat (7 * N / 10)).
Proof.
  intros HN. rewrite (num_connected_floor HN).
  destruct (N =? 90)%Z; [reflexivity|].
  rewrite Z2Nat.id; [reflexivity|]. apply Z.div_pos; lia.
Qed.

(** C1, as the code has it.  For a clamped node count [N] in the caller's
    range [0..100]: the connected quota [int(N * 0.7)] is [floor(7N/10)],
    except that it is 62 at [N = 90]; the singleton allowance is [N] minus
    that quota, whatever number of connected nodes is selected.  The
    selector takes the first [quota] nodes of the degree ranking, that is
    [min(quota, number of nodes with an edge)] nodes none of which has a
    smaller degree than a connected node left out, and the first
    [allowance] candidates without an edge, in the order of the candidate
    list, which ascends in m/z.  The returned network has exactly the
    selected nodes. *)
Theorem selection_takes_fixed_quotas :
  forall (pool : dict feature) (ms2_spectra : dict spectrum) (N : Z)
         (similarity_threshold : R),
    (0 <= N <= max_num_nodes)%Z ->
    let feature_list := feature_list_of pool N in
    let G := add_edges ms2_spectra similarity_threshold feature_list
                       empty_graph in
    let quota := if (N =? 90)%Z then 62%nat else Z.to_nat (7 * N / 10) in
    let allowance := (Z.to_nat N - quota)%nat in
    let selected_connected := selected_connected_of G N in
    let selected_singletons := selected_singletons_of G feature_list N in
    num_connected_of N = Z.of_nat quota /\
    num_singletons_of N = Z.of_nat allowance /\
    (quota + allowance)%nat = Z.to_nat N /\
    selected_connected = firstn quota (connected_nodes_sorted G) /\
    length selected_connected
    = Nat.min quota
              (length (filter (fun x => (0 <? degree G x)%nat) (nodes G))) /\
    (forall x y,
        In x selected_connected ->
        In y (nodes G) -> (0 < degree G y)%nat ->
        ~ In y selected_connected ->
        (degree G y <= degree G x)%nat) /\
    selected_singletons
    = firstn allowance
             (filter (fun fid => (degree G fid =? 0)%nat) feature_list) /\
    (exists entries,
        feature_list = map fst entries /\
        incl entries pool /\
        StronglySorted (fun a b => mz (snd a) <= mz (snd b)) entries) /\
    forall x,
      In x (nodes (build_network pool ms2_spectra N similarity_threshold))
      <-> In x selected_connected \/ In x selected_singletons.
Proof.
  intros pool ms2 N thr HN fl G quota allowance sc ss.
  pose proof (num_connected_range HN) as Hrange.
  pose proof (quota_closed_form HN) as Hq. fold quota in Hq.
  assert (Hsc : sc = firstn quota (connected_nodes_sorted G)).
  { subst sc. rewrite (selected_connected_firstn G HN), Hq, Nat2Z.id.
    reflexivity. }
  split; [exact Hq|]. split; [unfold num_singletons_of; lia|].
  split; [lia|]. split; [exact Hsc|]. split; [|split; [|split; [|split]]].
  - rewrite Hsc, length_firstn. unfold connected_nodes_sorted.
    rewrite sorted_length. reflexivity.
  - intros x y Hx Hy Hdeg Hny.
    assert (Hs : StronglySorted (fun a b => degree_ge G a b = true)
                   (firstn quota (connected_nodes_sorted G)
                    ++ skipn quota (connected_nodes_sorted G))).
    { rewrite firstn_skipn. apply sorted_ordered;
        [apply degree_ge_total | apply degree_ge_trans]. }
    assert (Hy' : In y (skipn quota (connected_nodes_sorted G))).
    { assert (H : In y (connected_nodes_sorted G))
        by (apply connected_nodes_sorted_In; auto).
      rewrite <- (firstn_skipn quota) in H. apply in_app_or in H.
      destruct H as [H|H]; [|exact H]. rewrite <- Hsc in H. contradiction. }
    rewrite Hsc in Hx.
    pose proof (StronglySorted_app_inv _ _ _ _ Hs Hx Hy') as Hle.
    unfold degree_ge in Hle. apply Nat.leb_le in Hle. exact Hle.
  - subst ss. rewrite (selected_singletons_firstn G fl HN).
    pose proof (@singleton_candidates_isolated ms2 thr fl fl) as Hiso.
    cbv zeta in Hiso. fold G in Hiso. rewrite Hiso.
    f_equal. lia.
  - exists (py_slice_to (sorted mz_le pool) (N * 2)).
    split; [reflexivity|]. split.
    + intros e He. apply py_slice_to_incl in He.
      apply sorted_In in He. exact He.
    + rewrite py_slice_to_nonneg by lia. apply StronglySorted_firstn.
      apply (StronglySorted_weaken
               (R := fun a b => mz_le a b = true)).
      * intros a b Hab. unfold mz_le in Hab. apply Rleb_true in Hab.
        exact Hab.
      * apply sorted_ordered; [apply mz_le_total | apply mz_le_trans].
  - intros x. apply (@build_network_nodes pool ms2 N thr x HN).
Qed.

Lemma selection_takes_fixed_quotas_witness :
  num_connected_of 3 = 2%Z /\ num_singletons_of 3 = 1%Z.
Proof.
  assert (H : (0 <= 3 <= max_num_nodes)%Z) by (unfold max_num_nodes; lia).
  pose proof (selection_takes_fixed_quotas three_features three_spectra
                default_similarity_threshold H) as (H1 & H2 & _).
  split; [exact H1 | exact H2].
Defined.

Lemma dict_get_absent (V : Type) (d : dict V) k :
  (forall v, ~ In (k, v) d) -> dict_get d k = None.
Proof.
  induction d as [|[k' v'] d IH]; intros H; cbn; [reflexivity|].
  destruct (fid_eqb k k') eqn:E.
  - apply fid_eqb_true in E. subst k'. exfalso. apply (H v'). left.
    reflexivity.
  - apply IH. intros v Hin. apply (H v). right. exact Hin.
Qed.

(** C6.  For an MS2 scan with a known precursor m/z and a non-empty filtered
    peak list.  (1) If the entry at position [i] is the non-blank feature of
    minimal distance to the precursor, at a distance strictly below 0.1, and
    strictly closer than every earlier non-blank feature, then after the
    scan the fragment table holds the filtered peaks under that feature's
    identity, holds under every other identity what it held before, and the
    feature table is unchanged.  (2) Such an entry exists as soon as some
    non-blank feature lies strictly within 0.1.  (3) Otherwise no identity
    other than the one synthesised for this scan changes in either table:
    in a blank run the state is unchanged, in a sample run the peaks are
    stored under the new identity with a new feature at the precursor m/z;
    and in a state reached by the extractor that identity is not one of an
    existing feature. *)
Theorem ms2_scan_attaches_to_closest_feature :
  forall (stem : string) (blank : bool) (st : extractor_state) (sp : scan)
         (precursor : R) (first : peak) (others : list peak),
    ms_level sp = 2%Z ->
    precursor_mz sp = Some precursor ->
    peaks sp = first :: others ->
    filter_peaks first others <> [] ->
    let st' := process_scan stem blank st sp in
    let fragments := filter_peaks first others in
    let new_id := Ms2Feature stem (st_ms2_count st) in
    (forall i fid feat,
        spec_closest_feature (st_features st) precursor i fid feat ->
        dict_get (st_ms2_spectra st') fid = Some fragments /\
        (forall other,
            other <> fid ->
            dict_get (st_ms2_spectra st') other
            = dict_get (st_ms2_spectra st) other) /\
        st_features st' = st_features st) /\
    ((exists fid feat,
         In (fid, feat) (st_features st) /\ is_blank feat = false
         /\ precursor_diff precursor feat < feature_mz_tolerance) ->
     exists i fid feat,
       spec_closest_feature (st_features st) precursor i fid feat) /\
    ((forall fid feat,
         In (fid, feat) (st_features st) -> is_blank feat = false ->
         ~ precursor_diff precursor feat < feature_mz_tolerance) ->
     (forall other,
         other <> new_id ->
         dict_get (st_ms2_spectra st') other
         = dict_get (st_ms2_spectra st) other /\
         dict_get (st_features st') other
         = dict_get (st_features st) other) /\
     (blank = true -> st' = st) /\
     (blank = false ->
      dict_get (st_ms2_spectra st') new_id = Some fragments /\
      dict_get (st_features st') new_id
      = Some (Feature precursor (rt_or_zero (scan_rt sp))
                      (sum_intensity fragments) stem false)) /\
     (extractor_invariant stem blank st ->
      dict_get (st_features st) new_id = None)).
Proof.
  intros stem blank st sp precursor first others Hl Hp Hk Hf st' frag new_id.
  subst st'.
  rewrite (@process_ms2_step stem blank st sp precursor first others
             Hl Hp Hk Hf).
  pose proof (find_best_feature_spec (st_features st) precursor) as Hspec.
  split; [|split].
  - intros i fid feat Hc.
    rewrite (spec_closest_feature_found Hc). cbn [st_ms2_spectra st_features].
    split; [apply dict_get_set_same|]. split; [|reflexivity].
    intros other Hne. apply dict_get_set_other. exact Hne.
  - intros (fid & feat & Hin & Hnb & Htol).
    destruct (find_best_feature (st_features st) precursor) as [best|].
    + destruct Hspec as (i & feat' & Hc). eauto.
    + exfalso. eapply Hspec; eauto.
  - intros Hnone.
    assert (E : find_best_feature (st_features st) precursor = None).
    { destruct (find_best_feature (st_features st) precursor) as [best|];
        [|reflexivity].
      destruct Hspec as (i & feat & Hnth & Hnb & Htol & _).
      exfalso. eapply Hnone; eauto. eapply nth_error_In; eauto. }
    rewrite E. split; [|split; [|split]].
    + intros other Hne. destruct blank; cbn [negb]; [auto|].
      cbn [st_ms2_spectra st_features].
      split; apply dict_get_set_other; exact Hne.
    + intros ->. reflexivity.
    + intros ->. cbn [negb st_ms2_spectra st_features].
      split; apply dict_get_set_same.
    + intros Hinv. apply dict_get_absent. intros v.
      apply (extractor_invariant_fresh_ms2 _ Hinv).
Qed.

Lemma ms2_scan_attaches_witness :
  dict_get (st_ms2_spectra (process_scan "run" false two_feature_state
                                         ms2_scan)) f1
  = Some [(50, 10); (60, 20)].
Proof.
  assert (Hf : filter_peaks (50, 10) [(60, 20)] <> [])
    by (rewrite ms2_scan_filtered_peaks; discriminate).
  rewrite <- ms2_scan_filtered_peaks.
  exact (proj1 (proj1 (@ms2_scan_attaches_to_closest_feature
                         "run" false two_feature_state ms2_scan
                         (100 + 3 / 64) (50, 10) [(60, 20)]
                         eq_refl eq_refl eq_refl Hf)
                      1%nat f1 _ ms2_scan_closest)).
Defined.

End SelectionAndAttachment.
